(** * Workflow chaining: completion-signal detector and chain keyword monitor

    A shallow embedding of [shared/workflow_utils.js], of the
    [ChainKeywordMonitor] class (chain_keyword_monitor.js), of the way from
    the command line of quick_task.js through task_chain_launcher.js to the
    monitor, and of [readFromInstance] of tmux_utils.js, with the
    properties the design document states about them and further
    properties the code shows.

    - JavaScript strings are sequences of UTF-16 code units; they are
      modelled as [list N], one number per code unit, so that [length],
      [startsWith], [includes] and friends count and compare exactly what
      the engine does.
    - A property that a configuration leaves out is [undefined]: [None].
    - The numbers of the [options] object, the clock and the offsets are
      integers ([Z]).
    - The methods of the monitor run in a monad that threads the object,
      collects what the method does to the outside (events emitted, texts
      sent, waits, reads, timers) and propagates exceptions.  What the clock
      and the terminal channel answer is an argument of the method.
    - A call of [start()] or [stop()] and a firing of the timer run to
      completion, the waits of the dispatcher included, before the next one
      begins: the single timeline the design document asks for.
    - Some listener is registered for the [error] event, as both command
      line tools do, so that emitting it does not throw.
    - Files are taken as read and parsed: a function that loads a file has
      its parsed content as an argument.  What tmux answers is an argument
      as well.
    - The text of an error the engine raises (a [TypeError]) is indicative;
      no statement depends on it. *)

From Stdlib Require Import String Ascii DecimalString.
From stdpp Require Import gmap list.

Open Scope N_scope.

(** ** JavaScript strings *)

Module JS.

Abbreviation jsstring := (list N).

(** An ASCII literal as code units. *)
Definition js (s : string) : jsstring :=
  map N_of_ascii (list_ascii_of_string s).

(** WhiteSpace and LineTerminator code units: what [String.prototype.trim]
    strips and what the regular-expression class [\s] matches. *)
Definition isWhiteSpace (c : N) : bool :=
  (c =? 9) || (c =? 10) || (c =? 11) || (c =? 12) || (c =? 13) || (c =? 32)
  || (c =? 160) || (c =? 5760) || ((8192 <=? c) && (c <=? 8202))
  || (c =? 8232) || (c =? 8233) || (c =? 8239) || (c =? 8287)
  || (c =? 12288) || (c =? 65279).

(** The class [\d]. *)
Definition isDigit (c : N) : bool := (48 <=? c) && (c <=? 57).

(** Line terminators, which the regular-expression dot does not match. *)
Definition isLineTerminator (c : N) : bool :=
  (c =? 10) || (c =? 13) || (c =? 8232) || (c =? 8233).

Fixpoint trimStart (s : jsstring) : jsstring :=
  match s with
  | [] => []
  | c :: r => if isWhiteSpace c then trimStart r else s
  end.

Definition trimEnd (s : jsstring) : jsstring := rev (trimStart (rev s)).

Definition trim (s : jsstring) : jsstring := trimEnd (trimStart s).

(** [a === b] on strings. *)
Fixpoint streq (a b : jsstring) : bool :=
  match a, b with
  | [], [] => true
  | c :: a', d :: b' => (c =? d) && streq a' b'
  | _, _ => false
  end.

Fixpoint startsWith (s p : jsstring) {struct p} : bool :=
  match p, s with
  | [], _ => true
  | c :: p', d :: s' => (c =? d) && startsWith s' p'
  | _ :: _, [] => false
  end.

Definition endsWith (s p : jsstring) : bool := startsWith (rev s) (rev p).

Fixpoint includes (s p : jsstring) : bool :=
  startsWith s p ||
  match s with
  | [] => false
  | _ :: s' => includes s' p
  end.

(** [s.indexOf(p)], [None] standing for -1. *)
Fixpoint indexOf (s p : jsstring) : option nat :=
  if startsWith s p then Some O
  else match s with
       | [] => None
       | _ :: s' => S <$> indexOf s' p
       end.

(** [s.lastIndexOf(p)] where [s] is the part of the string that starts at
    offset [i]; -1 when [p] does not occur. *)
Fixpoint lastIndexOfFrom (i : Z) (s p : jsstring) : Z :=
  let here := if startsWith s p then i else (-1)%Z in
  match s with
  | [] => here
  | _ :: s' =>
      let later := lastIndexOfFrom (i + 1)%Z s' p in
      if (later =? -1)%Z then here else later
  end.

Definition lastIndexOf (s p : jsstring) : Z := lastIndexOfFrom 0%Z s p.

(** [s.split('\n')]. *)
Fixpoint splitLines (s : jsstring) : list jsstring :=
  match s with
  | [] => [[]]
  | c :: r =>
      if c =? 10 then [] :: splitLines r
      else match splitLines r with
           | l :: ls => (c :: l) :: ls
           | [] => [[c]]
           end
  end.

(** [s.slice(-n)]: the last [n] code units (all of [s] when it is shorter). *)
Definition sliceLast (n : nat) (s : jsstring) : jsstring :=
  drop (length s - n)%nat s.

(** [s.replace(p, r)] with a string pattern: the first occurrence only. *)
Definition replaceFirst (s p r : jsstring) : jsstring :=
  match indexOf s p with
  | None => s
  | Some i => take i s ++ r ++ drop (i + length p)%nat s
  end.

(** [s.replace(/ab/g, r)] for a literal pattern of two code units [a], [b]:
    every occurrence, scanned left to right without overlap. *)
Fixpoint replaceAll2 (a b : N) (r : jsstring) (s : jsstring) : jsstring :=
  match s with
  | c :: ((d :: s'') as s') =>
      if (c =? a) && (d =? b) then r ++ replaceAll2 a b r s''
      else c :: replaceAll2 a b r s'
  | _ => s
  end.

End JS.

Import JS.

(** ** shared/workflow_utils.js *)

(** The status marker U+23FA the agent prints before its messages. *)
Definition MARKER : N := 9210.

(** The [ignoredPatterns] array; U+2610, U+25A1 and U+23BF are the ballot
    boxes and the bracket of the agent's task lists. *)
Definition ignoredPatterns (keyword : jsstring) : list jsstring :=
  [ [9744]; [9633]; [9151]; js "Document"; js "signal completion";
    js "with " ++ keyword; js "and " ++ keyword; js "using " ++ keyword;
    js "say " ++ keyword; js "Say " ++ keyword; js "type " ++ keyword;
    js "Execute step"; js "Step "; js "execute it"; js "plan:";
    js "todo list"; js "Create"; js "Analyze"; js "then execute";
    js ": Say"; js ". Say"; js "Let me"; js "I need to"; js "I will";
    js "I should" ].

(** The entries of [ignoredPatterns] that do not depend on the keyword. *)
Definition fixedPatterns : list jsstring :=
  [ [9744]; [9633]; [9151]; js "Document"; js "signal completion";
    js "Execute step"; js "Step "; js "execute it"; js "plan:";
    js "todo list"; js "Create"; js "Analyze"; js "then execute";
    js ": Say"; js ". Say"; js "Let me"; js "I need to"; js "I will";
    js "I should" ].

(** The prefixes that [ignoredPatterns] puts before the keyword. *)
Definition keywordPrefixes : list jsstring :=
  [ js "with "; js "and "; js "using "; js "say "; js "Say "; js "type " ].

(** The loop over [ignoredPatterns]: some pattern occurs in the line. *)
Definition containsIgnoredPattern (trimmedLine keyword : jsstring) : bool :=
  existsb (includes trimmedLine) (ignoredPatterns keyword).

(** [trimmedLine.match(/^\d+\./)]: a run of one or more digits at the start,
    followed by a dot. *)
Fixpoint afterDigits (s : jsstring) : jsstring :=
  match s with
  | c :: r => if isDigit c then afterDigits r else s
  | [] => []
  end.

Definition isNumberedItem (trimmedLine : jsstring) : bool :=
  match trimmedLine with
  | c :: r => isDigit c && startsWith (afterDigits r) (js ".")
  | [] => false
  end.

(** [keywordPattern.test(s)] for the pattern built from the escaped keyword
    between [^] and [\S*$]: the keyword, literally, then only
    non-whitespace up to the end of the string. *)
Definition keywordPatternTest (keyword s : jsstring) : bool :=
  startsWith s keyword &&
  forallb (fun c => negb (isWhiteSpace c)) (drop (length keyword) s).

(** [s.replace(/^⏺\s*/, '')]: the marker at the start and the whitespace
    after it are removed. *)
Definition stripMarker (s : jsstring) : jsstring :=
  match s with
  | c :: r => if c =? MARKER then trimStart r else s
  | [] => []
  end.

Definition isActualCompletionSignal (line keyword : jsstring) : bool :=
  let trimmedLine := trim line in
  if containsIgnoredPattern trimmedLine keyword then false
  else if isNumberedItem trimmedLine then false
  else if endsWith keyword (js ":") then
    keywordPatternTest keyword trimmedLine
    || keywordPatternTest keyword (stripMarker trimmedLine)
  else
    streq trimmedLine keyword
    || streq trimmedLine (MARKER :: js " " ++ keyword)
    || (startsWith trimmedLine [MARKER] && endsWith trimmedLine keyword
        && (length trimmedLine <? length keyword + 10)%nat).

Definition normalizeInstanceId (instanceId : jsstring) : jsstring :=
  if negb (includes instanceId (js "_"))
     || (negb (startsWith instanceId (js "auto_"))
         && negb (startsWith instanceId (js "spec_")))
  then instanceId
  else js "claude_" ++ instanceId.

Definition instanceIdToSessionName (instanceId : jsstring) : jsstring :=
  normalizeInstanceId instanceId.

Definition sessionNameToInstanceId (sessionName : jsstring) : jsstring :=
  if startsWith sessionName (js "claude_")
  then replaceFirst sessionName (js "claude_") []
  else sessionName.

Close Scope N_scope.
Open Scope Z_scope.

(** ** The chain keyword monitor: data *)

(** One entry of the [chains] array.  A field the configuration leaves out
    is [undefined] in JavaScript: [None] here. *)
Record Chain := mkChain {
  keyword : option jsstring;
  instruction : option jsstring;
  nextKeyword : option jsstring
}.

(** A value of [keywordMap]: the chain with its [chainIndex]. *)
Record ChainEntry := mkEntry {
  entryChain : Chain;
  chainIndex : nat
}.

(** An element of [executedChains]. *)
Record Executed := mkExecuted {
  exKeyword : option jsstring;
  exInstruction : option jsstring;
  exTimestamp : Z;
  exChainIndex : nat
}.

(** The [options] object: numbers, each of them optional. *)
Record Options := mkOptions {
  optPollInterval : option Z;
  optTimeout : option Z;
  optRetryAttempts : option Z;
  optRetryDelay : option Z
}.

(** What [config.chains] can be. *)
Inductive ChainsField :=
| ChainsAbsent
| ChainsNotArray
| ChainsArray (l : list Chain).

Record Config := mkConfig {
  cfgInstanceId : option jsstring;
  cfgChains : ChainsField;
  cfgOptions : option Options
}.

(** The fields of a [ChainKeywordMonitor] object.  [interval] tells whether
    a timer is installed; [keywordMap] is a JavaScript [Map], which iterates
    in insertion order, hence an association list. *)
Record Monitor := mkMonitor {
  instanceId : jsstring;
  chains : list Chain;
  pollInterval : Z;
  timeout : Z;
  retryAttempts : Z;
  retryDelay : Z;
  currentChainIndex : nat;
  currentKeyword : option jsstring;
  isActive : bool;
  startTime : option Z;
  interval : bool;
  lastReadPosition : Z;
  outputBuffer : jsstring;
  pollCount : nat;
  executedChains : list Executed;
  detectedKeywords : gset (option jsstring);
  lastDetectedPosition : gmap (option jsstring) Z;
  keywordMap : list (option jsstring * ChainEntry)
}.

Definition set_currentChainIndex (v : nat) (m : Monitor) : Monitor :=
  {| instanceId := instanceId m; chains := chains m; 
     pollInterval := pollInterval m; timeout := timeout m; 
     retryAttempts := retryAttempts m; retryDelay := retryDelay m; 
     currentChainIndex := v; currentKeyword := currentKeyword m; 
     isActive := isActive m; startTime := startTime m; 
     interval := interval m; lastReadPosition := lastReadPosition m; 
     outputBuffer := outputBuffer m; pollCount := pollCount m; 
     executedChains := executedChains m; 
     detectedKeywords := detectedKeywords m; 
     lastDetectedPosition := lastDetectedPosition m; 
     keywordMap := keywordMap m |}.

Definition set_currentKeyword (v : option jsstring) (m : Monitor) : Monitor :=
  {| instanceId := instanceId m; chains := chains m; 
     pollInterval := pollInterval m; timeout := timeout m; 
     retryAttempts := retryAttempts m; retryDelay := retryDelay m; 
     currentChainIndex := currentChainIndex m; currentKeyword := v; 
     isActive := isActive m; startTime := startTime m; 
     interval := interval m; lastReadPosition := lastReadPosition m; 
     outputBuffer := outputBuffer m; pollCount := pollCount m; 
     executedChains := executedChains m; 
     detectedKeywords := detectedKeywords m; 
     lastDetectedPosition := lastDetectedPosition m; 
     keywordMap := keywordMap m |}.

Definition set_isActive (v : bool) (m : Monitor) : Monitor :=
  {| instanceId := instanceId m; chains := chains m; 
     pollInterval := pollInterval m; timeout := timeout m; 
     retryAttempts := retryAttempts m; retryDelay := retryDelay m; 
     currentChainIndex := currentChainIndex m; 
     currentKeyword := currentKeyword m; isActive := v; 
     startTime := startTime m; interval := interval m; 
     lastReadPosition := lastReadPosition m; outputBuffer := outputBuffer m; 
     pollCount := pollCount m; executedChains := executedChains m; 
     detectedKeywords := detectedKeywords m; 
     lastDetectedPosition := lastDetectedPosition m; 
     keywordMap := keywordMap m |}.

Definition set_startTime (v : option Z) (m : Monitor) : Monitor :=
  {| instanceId := instanceId m; chains := chains m; 
     pollInterval := pollInterval m; timeout := timeout m; 
     retryAttempts := retryAttempts m; retryDelay := retryDelay m; 
     currentChainIndex := currentChainIndex m; 
     currentKeyword := currentKeyword m; isActive := isActive m; 
     startTime := v; interval := interval m; 
     lastReadPosition := lastReadPosition m; outputBuffer := outputBuffer m; 
     pollCount := pollCount m; executedChains := executedChains m; 
     detectedKeywords := detectedKeywords m; 
     lastDetectedPosition := lastDetectedPosition m; 
     keywordMap := keywordMap m |}.

Definition set_interval (v : bool) (m : Monitor) : Monitor :=
  {| instanceId := instanceId m; chains := chains m; 
     pollInterval := pollInterval m; timeout := timeout m; 
     retryAttempts := retryAttempts m; retryDelay := retryDelay m; 
     currentChainIndex := currentChainIndex m; 
     currentKeyword := currentKeyword m; isActive := isActive m; 
     startTime := startTime m; interval := v; 
     lastReadPosition := lastReadPosition m; outputBuffer := outputBuffer m; 
     pollCount := pollCount m; executedChains := executedChains m; 
     detectedKeywords := detectedKeywords m; 
     lastDetectedPosition := lastDetectedPosition m; 
     keywordMap := keywordMap m |}.

Definition set_outputBuffer (v : jsstring) (m : Monitor) : Monitor :=
  {| instanceId := instanceId m; chains := chains m; 
     pollInterval := pollInterval m; timeout := timeout m; 
     retryAttempts := retryAttempts m; retryDelay := retryDelay m; 
     currentChainIndex := currentChainIndex m; 
     currentKeyword := currentKeyword m; isActive := isActive m; 
     startTime := startTime m; interval := interval m; 
     lastReadPosition := lastReadPosition m; outputBuffer := v; 
     pollCount := pollCount m; executedChains := executedChains m; 
     detectedKeywords := detectedKeywords m; 
     lastDetectedPosition := lastDetectedPosition m; 
     keywordMap := keywordMap m |}.

Definition set_pollCount (v : nat) (m : Monitor) : Monitor :=
  {| instanceId := instanceId m; chains := chains m; 
     pollInterval := pollInterval m; timeout := timeout m; 
     retryAttempts := retryAttempts m; retryDelay := retryDelay m; 
     currentChainIndex := currentChainIndex m; 
     currentKeyword := currentKeyword m; isActive := isActive m; 
     startTime := startTime m; interval := interval m; 
     lastReadPosition := lastReadPosition m; outputBuffer := outputBuffer m; 
     pollCount := v; executedChains := executedChains m; 
     detectedKeywords := detectedKeywords m; 
     lastDetectedPosition := lastDetectedPosition m; 
     keywordMap := keywordMap m |}.

Definition set_executedChains (v : list Executed) (m : Monitor) : Monitor :=
  {| instanceId := instanceId m; chains := chains m; 
     pollInterval := pollInterval m; timeout := timeout m; 
     retryAttempts := retryAttempts m; retryDelay := retryDelay m; 
     currentChainIndex := currentChainIndex m; 
     currentKeyword := currentKeyword m; isActive := isActive m; 
     startTime := startTime m; interval := interval m; 
     lastReadPosition := lastReadPosition m; outputBuffer := outputBuffer m; 
     pollCount := pollCount m; executedChains := v; 
     detectedKeywords := detectedKeywords m; 
     lastDetectedPosition := lastDetectedPosition m; 
     keywordMap := keywordMap m |}.

Definition set_detectedKeywords (v : gset (option jsstring)) (m : Monitor) : Monitor :=
  {| instanceId := instanceId m; chains := chains m; 
     pollInterval := pollInterval m; timeout := timeout m; 
     retryAttempts := retryAttempts m; retryDelay := retryDelay m; 
     currentChainIndex := currentChainIndex m; 
     currentKeyword := currentKeyword m; isActive := isActive m; 
     startTime := startTime m; interval := interval m; 
     lastReadPosition := lastReadPosition m; outputBuffer := outputBuffer m; 
     pollCount := pollCount m; executedChains := executedChains m; 
     detectedKeywords := v; lastDetectedPosition := lastDetectedPosition m; 
     keywordMap := keywordMap m |}.

Definition set_lastDetectedPosition (v : gmap (option jsstring) Z) (m : Monitor) : Monitor :=
  {| instanceId := instanceId m; chains := chains m; 
     pollInterval := pollInterval m; timeout := timeout m; 
     retryAttempts := retryAttempts m; retryDelay := retryDelay m; 
     currentChainIndex := currentChainIndex m; 
     currentKeyword := currentKeyword m; isActive := isActive m; 
     startTime := startTime m; interval := interval m; 
     lastReadPosition := lastReadPosition m; outputBuffer := outputBuffer m; 
     pollCount := pollCount m; executedChains := executedChains m; 
     detectedKeywords := detectedKeywords m; lastDetectedPosition := v; 
     keywordMap := keywordMap m |}.

(** The events the monitor emits, with their payloads. *)
Inductive Event :=
| started
| stopped
| timeout_event (currentChain : nat) (executed : nat)
| chain_executed (k : option jsstring) (i : option jsstring) (idx : nat)
| chain_failed (k : option jsstring) (i : option jsstring) (idx : nat)
| chain_complete (totalStages : nat) (executed : list Executed)
| error (message : jsstring).

(** What the monitor does to the outside world, in order. *)
Inductive Effect :=
| Emit (e : Event)
| SendToInstance (instance : jsstring) (text : option jsstring)
| Sleep (ms : Z)
| ReadFromInstance (instance : jsstring) (lines : nat)
| SetInterval (ms : Z)
| ClearInterval.

(** What [sendToInstance] answers: a result whose [success] is true, one
    whose [success] is false, or an exception. *)
Inductive SendResult :=
| SendOk
| SendFailed (err : jsstring)
| SendThrew (err : jsstring).

(** What [readFromInstance] answers. *)
Inductive ReadResult :=
| ReadOk (output : jsstring)
| ReadFailed (err : jsstring)
| ReadThrew (err : jsstring).

(** ** A monad for the methods: monitor state, effect trace, exceptions *)

Inductive Outcome (A : Type) :=
| Returned (a : A)
| Threw (e : jsstring).
Arguments Returned {A} a.
Arguments Threw {A} e.

Definition M (A : Type) : Type := Monitor -> Outcome A * Monitor * list Effect.

#[global] Instance M_ret : MRet M := fun A a m => (Returned a, m, []).

#[global] Instance M_bind : MBind M := fun A B f c m =>
  match c m with
  | (Returned a, m1, t1) =>
      match f a m1 with
      | (r, m2, t2) => (r, m2, t1 ++ t2)
      end
  | (Threw e, m1, t1) => (Threw e, m1, t1)
  end.

Definition get : M Monitor := fun m => (Returned m, m, []).
Definition modify (f : Monitor -> Monitor) : M unit := fun m => (Returned tt, f m, []).
Definition tell (e : Effect) : M unit := fun m => (Returned tt, m, [e]).
Definition emit (e : Event) : M unit := tell (Emit e).
Definition throw {A} (e : jsstring) : M A := fun m => (Threw e, m, []).

(** [c.catch(h)]: a rejection of [c] is handed to [h]. *)
Definition catch (c : M unit) (h : jsstring -> M unit) : M unit := fun m =>
  match c m with
  | (Returned a, m1, t1) => (Returned a, m1, t1)
  | (Threw e, m1, t1) =>
      match h e m1 with
      | (r, m2, t2) => (r, m2, t1 ++ t2)
      end
  end.

Definition when (b : bool) (c : M unit) : M unit := if b then c else mret tt.

(** ** The chain keyword monitor: methods *)

(** [x || d] on an optional number: [undefined] and 0 give the default. *)
Definition orDefault (o : option Z) (d : Z) : Z :=
  match o with
  | Some v => if v =? 0 then d else v
  | None => d
  end.

(** Whether a string value is truthy: present and not empty. *)
Definition truthy (o : option jsstring) : bool :=
  match o with
  | Some (_ :: _) => true
  | _ => false
  end.

(** [map.set(k, v)]: a key already present keeps its place. *)
Fixpoint mapSet (k : option jsstring) (v : ChainEntry)
    (m : list (option jsstring * ChainEntry)) : list (option jsstring * ChainEntry) :=
  match m with
  | [] => [(k, v)]
  | (k', v') :: r =>
      if bool_decide (k' = k) then (k, v) :: r else (k', v') :: mapSet k v r
  end.

(** The [forEach] that fills [keywordMap], from index [i] on. *)
Fixpoint buildKeywordMap (cs : list Chain) (i : nat)
    (m : list (option jsstring * ChainEntry)) : list (option jsstring * ChainEntry) :=
  match cs with
  | [] => m
  | c :: r => buildKeywordMap r (S i) (mapSet (keyword c) (mkEntry c i) m)
  end.

(** [new ChainKeywordMonitor(config)]: the error message, or the object. *)
Definition constructor (config : Config) : jsstring + Monitor :=
  if negb (truthy (cfgInstanceId config)) then
    inl (js "Missing required config: instanceId")
  else
    match cfgChains config with
    | ChainsAbsent | ChainsNotArray =>
        inl (js "Missing required config: chains array")
    | ChainsArray cs =>
        let options := default (mkOptions None None None None) (cfgOptions config) in
        inr {| instanceId := default [] (cfgInstanceId config);
               chains := cs;
               pollInterval := orDefault (optPollInterval options) 5 * 1000;
               timeout := orDefault (optTimeout options) 600 * 1000;
               retryAttempts := orDefault (optRetryAttempts options) 3;
               retryDelay := orDefault (optRetryDelay options) 2 * 1000;
               currentChainIndex := 0;
               currentKeyword := head cs ≫= keyword;
               isActive := false;
               startTime := None;
               interval := false;
               lastReadPosition := 0;
               outputBuffer := [];
               pollCount := 0;
               executedChains := [];
               detectedKeywords := ∅;
               lastDetectedPosition := ∅;
               keywordMap := buildKeywordMap cs 0 [] |}
    end.

Definition stop : M unit :=
  m ← get;
  if negb (isActive m) then mret tt
  else
    modify (set_isActive false);;
    when (interval m) (tell ClearInterval;; modify (set_interval false));;
    emit stopped.

(** The loop of [sendInstructionWithRetry], entered with [attempt]; [send]
    is the channel's answer to each attempt.  [fuel] bounds the number of
    iterations. *)
Fixpoint retryLoop (send : Z -> SendResult) (text : option jsstring)
    (fuel : nat) (attempt : Z) : M bool :=
  match fuel with
  | O => mret false
  | S fuel' =>
      m ← get;
      if attempt <=? retryAttempts m then
        tell (SendToInstance (instanceId m) text);;
        match send attempt with
        | SendOk => mret true
        | SendFailed _ | SendThrew _ =>
            when (attempt <? retryAttempts m) (tell (Sleep (retryDelay m)));;
            retryLoop send text fuel' (attempt + 1)
        end
      else mret false
  end.

Definition sendInstructionWithRetry (send : Z -> SendResult)
    (text : option jsstring) : M bool :=
  m ← get;
  retryLoop send text (Z.to_nat (retryAttempts m)) 1.

Definition isExecuted (k : option jsstring) (idx : nat) (e : Executed) : bool :=
  bool_decide (exKeyword e = k) && bool_decide (exChainIndex e = idx).

Definition executeChainAction (now : Z) (send : Z -> SendResult)
    (chainConfig : ChainEntry) : M unit :=
  let c := entryChain chainConfig in
  let idx := chainIndex chainConfig in
  m ← get;
  if existsb (isExecuted (keyword c) idx) (executedChains m) then mret tt
  else
    modify (fun m => set_executedChains
      (executedChains m ++ [mkExecuted (keyword c) (instruction c) now idx]) m);;
    emit (chain_executed (keyword c) (instruction c) idx);;
    success ← sendInstructionWithRetry send (instruction c);
    if negb success then
      emit (chain_failed (keyword c) (instruction c) idx);;
      stop
    else if truthy (nextKeyword c) then
      modify (set_currentKeyword (nextKeyword c));;
      modify (set_currentChainIndex (idx + 1)%nat)
    else
      m' ← get;
      emit (chain_complete (length (executedChains m')) (executedChains m'));;
      stop.

(** [lastDetectedPosition.get(keyword) || -1]: a missing entry and a
    recorded offset 0 both give -1. *)
Definition lastPositionOf (k : option jsstring) (m : Monitor) : Z :=
  match lastDetectedPosition m !! k with
  | Some p => if p =? 0 then -1 else p
  | None => -1
  end.

(** The text a keyword is searched as: [undefined] is converted to the
    string of that name by [includes] and [lastIndexOf]. *)
Definition keywordText (k : option jsstring) : jsstring :=
  default (js "undefined") k.

(** The unanchored test of the escaped keyword followed by [\S*]: the
    keyword occurs in the line (the suffix may be empty). *)
Definition keywordSuffixTest (kw line : jsstring) : bool := includes line kw.

Definition isUserInput (inUserCommand : bool) (line trimmedLine kw : jsstring) : bool :=
  inUserCommand
  || startsWith trimmedLine (js ">")
  || includes line (js "plz say")
  || includes line (js "please say")
  || includes line (js "type:")
  || (includes line (js "Todo:") && includes line kw)
  || (includes line (js "Task:") && includes line kw)
  || (includes line (js "Given the following") && includes line kw).

(** The loop over the lines of the buffer in [detectKeywordInOutput].  A
    method call on an [undefined] keyword throws. *)
Fixpoint scanLines (k : option jsstring) (lines : list jsstring)
    (inUserCommand : bool) : M bool :=
  match lines with
  | [] => mret false
  | line :: rest =>
      let trimmedLine := trim line in
      let inUser1 := if startsWith trimmedLine (js ">") then true else inUserCommand in
      let inUser2 := if inUser1 && includes trimmedLine [MARKER] then false else inUser1 in
      match k with
      | None => throw (js "TypeError: Cannot read properties of undefined")
      | Some kw =>
          let hasKeyword :=
            if endsWith kw (js ":") then keywordSuffixTest kw line
            else includes line kw in
          if hasKeyword then
            if isUserInput inUser2 line trimmedLine kw then scanLines k rest inUser2
            else if negb (isActualCompletionSignal line kw) then scanLines k rest inUser2
            else
              m ← get;
              let keywordIndex := lastIndexOf (outputBuffer m) kw in
              modify (fun m => set_lastDetectedPosition
                                 (<[k := keywordIndex]> (lastDetectedPosition m)) m);;
              modify (fun m => set_detectedKeywords ({[k]} ∪ detectedKeywords m) m);;
              mret true
          else scanLines k rest inUser2
      end
  end.

Definition detectKeywordInOutput (k : option jsstring) : M bool :=
  m ← get;
  if negb (includes (outputBuffer m) (keywordText k)) then mret false
  else
    let currentPosition := lastIndexOf (outputBuffer m) (keywordText k) in
    let lastPosition := lastPositionOf k m in
    if currentPosition <=? lastPosition then mret false
    else scanLines k (splitLines (outputBuffer m)) false.

(** The loop of [checkForKeywords] over the entries of [keywordMap]. *)
Fixpoint checkEntries (now : Z) (send : Z -> SendResult)
    (entries : list (option jsstring * ChainEntry)) : M unit :=
  match entries with
  | [] => mret tt
  | (k, chainConfig) :: rest =>
      detectKeywordInOutput k ≫= fun detected : bool =>
      if detected then executeChainAction now send chainConfig
      else checkEntries now send rest
  end.

Definition checkForKeywords (now : Z) (send : Z -> SendResult) : M unit :=
  m ← get;
  checkEntries now send (keywordMap m).

(** The unwrapping of an output that the bridge returned as JSON text:
    [bridgePrefix] is the text before the payload, [bridgeSuffix] the quote
    and brace that end the string. *)
Definition bridgePrefix : jsstring :=
  js "{" ++ [34%N] ++ js "success" ++ [34%N] ++ js ":true," ++ [34%N]
  ++ js "output" ++ [34%N] ++ js ":" ++ [34%N].

Definition bridgeSuffix : jsstring := [34%N] ++ js "}".

(** The capture group of the pattern: [bridgePrefix], then a payload without
    line terminators, then [bridgeSuffix] at the very end; the leftmost
    start wins. *)
Fixpoint bridgeMatch (s : jsstring) : option jsstring :=
  let here :=
    if startsWith s bridgePrefix then
      let rest := drop (length bridgePrefix) s in
      let payload := take (length rest - 2)%nat rest in
      if endsWith rest bridgeSuffix
         && forallb (fun c => negb (isLineTerminator c)) payload
      then Some payload else None
    else None in
  match here, s with
  | Some payload, _ => Some payload
  | None, [] => None
  | None, _ :: s' => bridgeMatch s'
  end.

Definition unwrapBridgeOutput (newOutput : jsstring) : jsstring :=
  if includes newOutput bridgePrefix then
    match bridgeMatch newOutput with
    | Some payload =>
        replaceAll2 92%N 34%N [34%N] (replaceAll2 92%N 110%N [10%N] payload)
    | None => newOutput
    end
  else newOutput.

(** The window [slice(-10000)] keeps of the old buffer. *)
Definition bufferWindow : nat := Z.to_nat 10000.

(** [result.error || 'Failed to read instance output']. *)
Definition readErrorMessage (err : jsstring) : jsstring :=
  match err with
  | [] => js "Failed to read instance output"
  | _ => err
  end.

(** [checkOutput] up to its first suspension: the activity guard, the poll
    counter and the timeout check.  The result tells whether the read is
    issued. *)
Definition checkOutputBegin (now : Z) : M bool :=
  m ← get;
  if negb (isActive m) then mret false
  else
    modify (set_pollCount (S (pollCount m)));;
    if now - default 0 (startTime m) >? timeout m then
      stop;;
      emit (timeout_event (currentChainIndex m) (length (executedChains m)));;
      mret false
    else
      tell (ReadFromInstance (instanceId m) 200);;
      mret true.

(** [checkOutput] from the answer of the read on. *)
Definition checkOutputResume (now : Z) (read : ReadResult)
    (send : Z -> SendResult) : M unit :=
  match read with
  | ReadThrew err => throw err
  | ReadFailed err => throw (readErrorMessage err)
  | ReadOk output =>
      let newOutput := unwrapBridgeOutput output in
      modify (fun m => set_outputBuffer
                         (sliceLast bufferWindow (outputBuffer m) ++ newOutput) m);;
      checkForKeywords now send
  end.

Definition checkOutput (now : Z) (read : ReadResult)
    (send : Z -> SendResult) : M unit :=
  checkOutputBegin now ≫= fun reading : bool =>
  if reading then checkOutputResume now read send else mret tt.

(** One firing of the timer that [start] installs: a rejection of
    [checkOutput] becomes an [error] event.  Without a timer nothing fires. *)
Definition tick (now : Z) (read : ReadResult) (send : Z -> SendResult) : M unit :=
  m ← get;
  if interval m then
    catch (checkOutput now read send) (fun e => emit (error e))
  else mret tt.

(** [start()].  The immediate check runs up to its read, [started] is
    emitted, and the check goes on when the read answers; its rejection is
    only printed. *)
Definition start (now : Z) (read : ReadResult) (send : Z -> SendResult) : M unit :=
  m ← get;
  if isActive m then mret tt
  else
    modify (set_isActive true);;
    modify (set_startTime (Some now));;
    tell (SetInterval (pollInterval m));;
    modify (set_interval true);;
    checkOutputBegin now ≫= fun reading : bool =>
    emit started;;
    if reading then catch (checkOutputResume now read send) (fun _ => mret tt)
    else mret tt.

(** What happens to a monitor from outside: calls of [start] and [stop] and
    firings of the timer, each with what the clock and the channel answer. *)
Inductive Action :=
| DoStart (now : Z) (read : ReadResult) (send : Z -> SendResult)
| DoTick (now : Z) (read : ReadResult) (send : Z -> SendResult)
| DoStop.

Definition perform (a : Action) : M unit :=
  match a with
  | DoStart now read send => start now read send
  | DoTick now read send => tick now read send
  | DoStop => stop
  end.

(** A run: the actions one after the other, each to completion. *)
Fixpoint run (actions : list Action) (m : Monitor) : Monitor * list Effect :=
  match actions with
  | [] => (m, [])
  | a :: rest =>
      match perform a m with
      | (_, m1, t1) =>
          match run rest m1 with
          | (m2, t2) => (m2, t1 ++ t2)
          end
      end
  end.

(** The events of a trace. *)
Definition events (t : list Effect) : list Event :=
  omap (fun e => match e with Emit ev => Some ev | _ => None end) t.

Definition stateOf {A} (r : Outcome A * Monitor * list Effect) : Monitor := r.1.2.
Definition traceOf {A} (r : Outcome A * Monitor * list Effect) : list Effect := r.2.
Definition outcomeOf {A} (r : Outcome A * Monitor * list Effect) : Outcome A := r.1.1.

(** ** Vocabulary of the statements *)

(** The trace of [k] attempts that failed and were followed by the wait. *)
Definition failedAttempts (m : Monitor) (text : option jsstring) (k : nat) : list Effect :=
  concat (replicate k [SendToInstance (instanceId m) text; Sleep (retryDelay m)]).


(** The monitor after [stop()] on an active monitor. *)
Definition stopped_state (m : Monitor) : Monitor :=
  if interval m then set_interval false (set_isActive false m)
  else set_isActive false m.

(** What [stop()] does to the world on an active monitor. *)
Definition stop_trace (m : Monitor) : list Effect :=
  (if interval m then [ClearInterval] else []) ++ [Emit stopped].

(** The monitor after keyword [k] was detected in its buffer. *)
Definition detectedAt (k : option jsstring) (m : Monitor) : Monitor :=
  set_detectedKeywords ({[k]} ∪ detectedKeywords m)
    (set_lastDetectedPosition
       (<[k := lastIndexOf (outputBuffer m) (keywordText k)]> (lastDetectedPosition m)) m).

(** The offset check of [detectKeywordInOutput] lets keyword [k] through. *)
Definition passesOffsetCheck (k : option jsstring) (m : Monitor) : Prop :=
  lastPositionOf k m < lastIndexOf (outputBuffer m) (keywordText k).

(** The record [executeChainAction] appends for an entry. *)
Definition executionOf (now : Z) (e : ChainEntry) : Executed :=
  mkExecuted (keyword (entryChain e)) (instruction (entryChain e)) now (chainIndex e).

(** The duplicate-execution guard finds the entry among the executed. *)
Definition alreadyExecuted (e : ChainEntry) (m : Monitor) : bool :=
  existsb (isExecuted (keyword (entryChain e)) (chainIndex e)) (executedChains m).

(** [stop()] in general: nothing on a monitor that is not active. *)
Definition afterStop (m : Monitor) : Monitor :=
  if isActive m then stopped_state m else m.

Definition stopTraceOf (m : Monitor) : list Effect :=
  if isActive m then stop_trace m else [].

(** The events that report how a run ended. *)
Definition isOutcomeEvent (e : Event) : bool :=
  match e with
  | stopped | timeout_event _ _ | chain_failed _ _ _ | chain_complete _ _ => true
  | started | chain_executed _ _ _ | error _ => false
  end.

(** The outcome events of a trace, in order. *)
Definition lifecycle (t : list Effect) : list Event :=
  List.filter isOutcomeEvent (events t).

(** How the monitor reports the end of a run: [stopped] alone for a call of
    [stop()], [stopped] and then the timeout event, or the failure or
    completion event and then [stopped]. *)
Definition outcomeReported (l : list Event) : Prop :=
  l = [stopped]
  \/ (exists c n, l = [stopped; timeout_event c n])
  \/ (exists k i idx, l = [chain_failed k i idx; stopped])
  \/ (exists n ex, l = [chain_complete n ex; stopped]).

(** The way [executedChains] changes in one step: not at all, or by one
    record whose keyword and index the guard did not find before. *)
Definition extendsByNew (old new : list Executed) : Prop :=
  new = old
  \/ exists e, new = old ++ [e]
              /\ existsb (isExecuted (exKeyword e) (exChainIndex e)) old = false.

(** The stage an execution record stands for. *)
Definition stageKey (e : Executed) : option jsstring * nat :=
  (exKeyword e, exChainIndex e).

(** After a step the monitor is still active and has reported no outcome, or
    it is no longer active and has reported one. *)
Definition pollReport (m' : Monitor) (t : list Effect) : Prop :=
  (isActive m' = true /\ lifecycle t = [])
  \/ (isActive m' = false /\ outcomeReported (lifecycle t)).


(** Keyword [K] stands in the buffer at offset [o]. *)
Definition occursAt (buffer K : jsstring) (o : Z) : Prop :=
  0 <= o <= Z.of_nat (length buffer)
  /\ startsWith (drop (Z.to_nat o) buffer) K = true.


(** Every key of [keywordMap] is the keyword of its entry, as the
    constructor builds the map. *)
Definition keywordMapOk (m : Monitor) : Prop :=
  Forall (fun ke => keyword (entryChain (snd ke)) = fst ke) (keywordMap m).

(** What none of the steps of a check for keywords changes. *)
Definition sameSetup (m m' : Monitor) : Prop :=
  keywordMap m' = keywordMap m
  /\ startTime m' = startTime m
  /\ pollCount m' = pollCount m.

(** A chain as the design document wants it refused: no stage at all, a
    stage without keyword or instruction, or a next keyword that no later
    stage has as its keyword. *)
Fixpoint linkageBroken (cs : list Chain) : bool :=
  match cs with
  | [] => false
  | c :: rest =>
      (truthy (nextKeyword c)
       && negb (existsb (fun c' => bool_decide (keyword c' = nextKeyword c)) rest))
      || linkageBroken rest
  end.

Definition invalidAsDocumented (cs : list Chain) : bool :=
  bool_decide (cs = [])
  || existsb (fun c => negb (truthy (keyword c)) || negb (truthy (instruction c))) cs
  || linkageBroken cs.

(** The monitor [start()] hands to its immediate check. *)
Definition activated (now : Z) (m : Monitor) : Monitor :=
  set_interval true (set_startTime (Some now) (set_isActive true m)).

(** The reading failed: a result without success, or an exception; with the
    message the rejection of [checkOutput] carries. *)
Definition readFailure (read : ReadResult) : option jsstring :=
  match read with
  | ReadOk _ => None
  | ReadFailed err => Some (readErrorMessage err)
  | ReadThrew err => Some err
  end.

(** ** Configurations used in the examples *)

(** The three stages of a chain IMPLEMENTED, TESTED, DOCUMENTED. *)
Definition stage1 : Chain :=
  mkChain (Some (js "IMPLEMENTED")) (Some (js "now test it")) (Some (js "TESTED")).
Definition stage2 : Chain :=
  mkChain (Some (js "TESTED")) (Some (js "now write the docs")) (Some (js "DOCUMENTED")).
Definition stage3 : Chain :=
  mkChain (Some (js "DOCUMENTED")) (Some (js "well done")) None.

Definition threeStages : Config :=
  mkConfig (Some (js "test")) (ChainsArray [stage1; stage2; stage3]) None.


(** A channel on which every send succeeds, one on which none does, and one
    on which the third does. *)
Definition alwaysOk : Z -> SendResult := fun _ => SendOk.

(** Chains that the design document calls invalid: a stage without keyword,
    and a next keyword that no later stage answers to. *)
Definition stageWithoutKeyword : Chain :=
  mkChain None (Some (js "now test it")) None.
Definition stageToNowhere : Chain :=
  mkChain (Some (js "IMPLEMENTED")) (Some (js "now test it")) (Some (js "REVIEWED")).

(** The two messages of the constructor. *)
Definition missingInstanceId : jsstring := js "Missing required config: instanceId".
Definition missingChains : jsstring := js "Missing required config: chains array".

(** The two rejection rules of the detector, which run before any
    acceptance. *)
Definition passesRejection (L K : jsstring) : Prop :=
  containsIgnoredPattern (trim L) K = false /\ isNumberedItem (trim L) = false.

(** Rule 4 in the words of the design document: the trimmed line is the
    keyword, or the keyword behind one status marker, or the status marker,
    at most 9 further characters and the keyword. *)
Definition acceptedByRule4AsWritten (L K : jsstring) : Prop :=
  trim L = K
  \/ trim L = MARKER :: K
  \/ exists mid, trim L = MARKER :: mid ++ K /\ (length mid <= 9)%nat.

(** Unfolding of the monad, for the proofs. *)
Ltac monad_unfold :=
  unfold emit, when;
  unfold mbind, M_bind, mret, M_ret, get, modify, tell, throw, catch.

(** ** The rest of the monitor *)

(** The object [getStatus()] returns.  [startTime ? ... : 0]: a start time
    that is missing or 0 gives the uptime 0. *)
Record Status := mkStatus {
  stIsActive : bool;
  stInstanceId : jsstring;
  stCurrentKeyword : option jsstring;
  stCurrentChainIndex : nat;
  stTotalChains : nat;
  stExecutedChains : nat;
  stPollCount : nat;
  stUptime : Z
}.

Definition getStatus (now : Z) (m : Monitor) : Status :=
  {| stIsActive := isActive m;
     stInstanceId := instanceId m;
     stCurrentKeyword := currentKeyword m;
     stCurrentChainIndex := currentChainIndex m;
     stTotalChains := length (chains m);
     stExecutedChains := length (executedChains m);
     stPollCount := pollCount m;
     stUptime := match startTime m with
                 | Some t => if t =? 0 then 0 else now - t
                 | None => 0
                 end |}.

(** The stage an entry of the keyword map stands for. *)
Definition entryKey (ke : option jsstring * ChainEntry) : option jsstring * nat :=
  (keyword (entryChain (snd ke)), chainIndex (snd ke)).

(** Every execution on record is that of an entry of the keyword map. *)
Definition executedFromMap (m : Monitor) : Prop :=
  incl (map stageKey (executedChains m)) (map entryKey (keywordMap m)).

(** A line of the buffer that [detectKeywordInOutput] can accept for [K]:
    it contains the keyword, is no user input by itself, and is a completion
    signal. *)
Definition signalLine (K line : jsstring) : Prop :=
  includes line K = true
  /\ startsWith (trim line) (js ">") = false
  /\ isActualCompletionSignal line K = true.

(** No line shows the status marker. *)
Definition noMarker (lines : list jsstring) : Prop :=
  Forall (fun line => includes (trim line) [MARKER] = false) lines.

(** The output an action hands to the monitor, when its read succeeds. *)
Definition actionOutput (a : Action) : option jsstring :=
  match a with
  | DoStart _ (ReadOk output) _ | DoTick _ (ReadOk output) _ => Some output
  | _ => None
  end.

(** ** shared/workflow_utils.js: templates *)

(** The text a replacement string stands for at one match of a pattern
    without capture groups: [$$] is a dollar sign, [$&] the match, [$`] the
    text before it and [$'] the text after it; any other dollar sign stands
    for itself. *)
Fixpoint expandReplacement (matched before after replacement : jsstring) : jsstring :=
  match replacement with
  | [] => []
  | c :: r =>
      if (c =? 36)%N then
        match r with
        | d :: r' =>
            if (d =? 36)%N then 36%N :: expandReplacement matched before after r'
            else if (d =? 38)%N then matched ++ expandReplacement matched before after r'
            else if (d =? 96)%N then before ++ expandReplacement matched before after r'
            else if (d =? 39)%N then after ++ expandReplacement matched before after r'
            else 36%N :: expandReplacement matched before after r
        | [] => [36%N]
        end
      else c :: expandReplacement matched before after r
  end.

(** [whole.replace(/pat/g, value)] for a literal pattern, from offset [pos]
    on, where [rest] is the text from there and [skip] counts the code
    units of the last match that [rest] still begins with. *)
Fixpoint replaceAllFrom (pat value whole : jsstring) (pos skip : nat)
    (rest : jsstring) : jsstring :=
  match rest with
  | [] => []
  | c :: rest' =>
      match skip with
      | S k => replaceAllFrom pat value whole (S pos) k rest'
      | O =>
          if startsWith rest pat then
            expandReplacement pat (take pos whole) (drop (pos + length pat) whole) value
            ++ replaceAllFrom pat value whole (S pos) (length pat - 1) rest'
          else c :: replaceAllFrom pat value whole (S pos) 0 rest'
      end
  end.

Definition replaceAllLiteral (pat value text : jsstring) : jsstring :=
  replaceAllFrom pat value text 0 0 text.

(** The pattern built for a placeholder: the name between double braces.
    (The name goes into the pattern as it is: it is meant to be a word.) *)
Definition placeholderPattern (placeholder : jsstring) : jsstring :=
  js "{{" ++ placeholder ++ js "}}".

(** [replaceTemplatePlaceholders(text, replacements)], the replacements in
    the order of [Object.entries].  A text that is [undefined] comes back
    when there is nothing to replace and makes the first [replace] throw
    otherwise. *)
Definition replaceTemplatePlaceholders (text : option jsstring)
    (replacements : list (jsstring * jsstring)) : Outcome (option jsstring) :=
  match replacements, text with
  | [], _ => Returned text
  | _ :: _, None => Threw (js "TypeError: Cannot read properties of undefined")
  | _ :: _, Some t =>
      Returned (Some (fold_left
                        (fun result pv =>
                           replaceAllLiteral (placeholderPattern (fst pv)) (snd pv) result)
                        replacements t))
  end.

(** The one use the repository makes of it: [{ TASK: task }]. *)
Definition replaceTask (text : option jsstring) (task : jsstring) : Outcome (option jsstring) :=
  replaceTemplatePlaceholders text [(js "TASK", task)].

(** ** shared/workflow_utils.js: workflows *)

(** What [workflow.options] can be: missing or falsy, a truthy value that is
    no object, or an object. *)
Inductive OptionsField :=
| OptionsAbsent
| OptionsNotObject
| OptionsObject (o : Options).

(** A workflow as parsed from its file; the strings are optional, and
    [wfChains] is [ChainsAbsent] for a missing or falsy value and
    [ChainsNotArray] for a truthy value that is no array. *)
Record Workflow := mkWorkflow {
  wfName : option jsstring;
  wfDescription : option jsstring;
  wfChains : ChainsField;
  wfInitialPrompt : option jsstring;
  wfOptions : OptionsField
}.

(** A number as the template literals print it. *)
Definition decimal (n : nat) : jsstring :=
  js (NilEmpty.string_of_uint (Nat.to_uint n)).

Definition missingField (b : bool) (field : string) : list jsstring :=
  if b then [js "Missing required field: " ++ js field] else [].

(** The errors of the callback of [forEach] for the chain at [index] of
    [total]. *)
Definition chainErrors (total index : nat) (chain : Chain) : list jsstring :=
  (if negb (truthy (keyword chain))
   then [js "Chain " ++ decimal index ++ js " missing required field: keyword"]
   else [])
  ++ (if negb (truthy (instruction chain))
      then [js "Chain " ++ decimal index ++ js " missing required field: instruction"]
      else [])
  ++ (if (index <? total - 1)%nat && negb (truthy (nextKeyword chain))
      then [js "Chain " ++ decimal index
            ++ js " missing nextKeyword (required except on last chain)"]
      else []).

Fixpoint chainsErrors (total index : nat) (cs : list Chain) : list jsstring :=
  match cs with
  | [] => []
  | c :: rest => chainErrors total index c ++ chainsErrors total (S index) rest
  end.

(** The [errors] array of [validateWorkflow]. *)
Definition validationErrors (w : Workflow) : list jsstring :=
  missingField (negb (truthy (wfName w))) "name"
  ++ missingField (negb (truthy (wfDescription w))) "description"
  ++ missingField (match wfChains w with ChainsAbsent => true | _ => false end) "chains"
  ++ missingField (negb (truthy (wfInitialPrompt w))) "initialPrompt"
  ++ missingField (match wfOptions w with OptionsAbsent => true | _ => false end) "options"
  ++ match wfChains w with
     | ChainsArray cs =>
         (match cs with [] => [js "Chains array cannot be empty"] | _ => [] end)
         ++ chainsErrors (length cs) 0 cs
     | ChainsNotArray => [js "Chains must be an array"]
     | ChainsAbsent => []
     end
  ++ match wfOptions w with
     | OptionsNotObject => [js "Options must be an object"]
     | _ => []
     end
  ++ (if truthy (wfInitialPrompt w)
         && negb (includes (default [] (wfInitialPrompt w)) (js "{{TASK}}"))
      then [js "initialPrompt should include {{TASK}} placeholder"]
      else []).

Record Validation := mkValidation {
  valid : bool;
  errors : list jsstring
}.

Definition validateWorkflow (w : Workflow) : Validation :=
  let errs := validationErrors w in
  {| valid := match errs with [] => true | _ => false end; errors := errs |}.

(** [errors.join(', ')]. *)
Fixpoint joinWith (sep : jsstring) (parts : list jsstring) : jsstring :=
  match parts with
  | [] => []
  | [x] => x
  | x :: rest => x ++ sep ++ joinWith sep rest
  end.

(** [loadWorkflow(name)] from the moment the file, which exists, is parsed
    into [parsed]. *)
Definition loadWorkflow (name : jsstring) (parsed : Workflow) : Outcome Workflow :=
  let validation := validateWorkflow parsed in
  if negb (valid validation) then
    Threw (js "Invalid workflow '" ++ name ++ js "': "
           ++ joinWith (js ", ") (errors validation))
  else Returned parsed.

(** A task configuration, as [buildWorkflowFromPreset] builds it and the
    launcher reads it back from its file. *)
Record TaskConfig := mkTaskConfig {
  tcInstanceId : option jsstring;
  tcTaskDescription : option jsstring;
  tcChains : ChainsField;
  tcInitialPrompt : option jsstring;
  tcOptions : OptionsField
}.

(** The options [buildWorkflowFromPreset] falls back on. *)
Definition defaultOptions : Options :=
  mkOptions (Some 5) (Some 600) (Some 3) (Some 2).

(** The callback of [workflow.chains.map]: a falsy [nextKeyword] is left
    out. *)
Definition presetChain (task : jsstring) (chain : Chain) : Outcome Chain :=
  match replaceTask (instruction chain) task with
  | Returned i =>
      Returned (mkChain (keyword chain) i
                  (if truthy (nextKeyword chain) then nextKeyword chain else None))
  | Threw e => Threw e
  end.

(** [array.map(f)] for a callback that can throw. *)
Fixpoint mapOutcome {A B} (f : A -> Outcome B) (l : list A) : Outcome (list B) :=
  match l with
  | [] => Returned []
  | x :: rest =>
      match f x with
      | Threw e => Threw e
      | Returned y =>
          match mapOutcome f rest with
          | Threw e => Threw e
          | Returned ys => Returned (y :: ys)
          end
      end
  end.

(** [buildWorkflowFromPreset(presetName, task, instanceId)], with the parsed
    content of the file of the preset. *)
Definition buildWorkflowFromPreset (presetName : jsstring) (parsed : Workflow)
    (task : jsstring) (instance : option jsstring) : Outcome TaskConfig :=
  match loadWorkflow presetName parsed with
  | Threw e => Threw e
  | Returned workflow =>
      match wfChains workflow with
      | ChainsAbsent | ChainsNotArray =>
          Threw (js "TypeError: workflow.chains.map is not a function")
      | ChainsArray cs =>
          match mapOutcome (presetChain task) cs with
          | Threw e => Threw e
          | Returned chains' =>
              match replaceTask (wfInitialPrompt workflow) task with
              | Threw e => Threw e
              | Returned prompt =>
                  Returned
                    {| tcInstanceId :=
                         Some (if truthy instance then default [] instance
                               else js "YOUR_INSTANCE_ID");
                       tcTaskDescription := Some task;
                       tcChains := ChainsArray chains';
                       tcInitialPrompt := prompt;
                       tcOptions :=
                         match wfOptions workflow with
                         | OptionsAbsent => OptionsObject defaultOptions
                         | o => o
                         end |}
              end
          end
      end
  end.

(** ** task_chain_launcher.js *)

(** The checks of [loadTaskConfig] on the parsed file. *)
Definition loadTaskConfig (config : TaskConfig) : Outcome TaskConfig :=
  if negb (truthy (tcTaskDescription config)) then
    Threw (js "Config must include taskDescription field")
  else if negb (truthy (tcInitialPrompt config)) then
    Threw (js "Config must include initialPrompt field")
  else Returned config.

(** The callback of [config.chains.map] in [main]: the instruction with the
    task filled in, the rest of the chain as it is. *)
Definition launcherChain (task : jsstring) (chain : Chain) : Outcome Chain :=
  match replaceTask (instruction chain) task with
  | Returned i => Returned (mkChain (keyword chain) i (nextKeyword chain))
  | Threw e => Threw e
  end.

(** The options as the constructor of the monitor reads them: of a truthy
    value that is no object every property is [undefined]. *)
Definition monitorOptions (o : OptionsField) : option Options :=
  match o with
  | OptionsAbsent => None
  | OptionsNotObject => Some (mkOptions None None None None)
  | OptionsObject o => Some o
  end.

(** [processedConfig], as the constructor of the monitor reads it:
    [instance] is the identifier [main] settled on. *)
Definition processedConfig (config : TaskConfig) (instance : option jsstring) : Outcome Config :=
  match tcChains config with
  | ChainsAbsent | ChainsNotArray =>
      Threw (js "TypeError: config.chains.map is not a function")
  | ChainsArray cs =>
      match mapOutcome (launcherChain (default (js "undefined") (tcTaskDescription config))) cs with
      | Threw e => Threw e
      | Returned chains' =>
          Returned (mkConfig instance (ChainsArray chains')
                      (monitorOptions (tcOptions config)))
      end
  end.

(** What [validateWorkflow] asks of the chains: a keyword and an instruction
    for each, a next keyword for each but the last. *)
Definition stageFilled (c : Chain) : Prop :=
  truthy (keyword c) = true /\ truthy (instruction c) = true.

Definition chainsAccepted (cs : list Chain) : Prop :=
  cs <> []
  /\ Forall stageFilled cs
  /\ Forall (fun c => truthy (nextKeyword c) = true) (removelast cs).

Definition workflowAccepted (w : Workflow) : Prop :=
  truthy (wfName w) = true
  /\ truthy (wfDescription w) = true
  /\ (exists prompt, wfInitialPrompt w = Some prompt
                     /\ prompt <> [] /\ includes prompt (js "{{TASK}}") = true)
  /\ (exists o, wfOptions w = OptionsObject o)
  /\ (exists cs, wfChains w = ChainsArray cs /\ chainsAccepted cs).

(** The workflow of the file workflows/default.json. *)
Definition defaultWorkflow : Workflow :=
  {| wfName := Some (js "default");
     wfDescription := Some (js "Standard development workflow");
     wfChains := ChainsArray
       [ mkChain (Some (js "IMPLEMENTED"))
           (Some (js "Great implementation! Now test '{{TASK}}'. End by saying TESTED"))
           (Some (js "TESTED"));
         mkChain (Some (js "TESTED"))
           (Some (js "Excellent testing! Now document '{{TASK}}'. End by saying DOCUMENTED"))
           (Some (js "DOCUMENTED"));
         mkChain (Some (js "DOCUMENTED"))
           (Some (js "Perfect! Now provide a final summary of '{{TASK}}'. End by saying COMPLETE"))
           (Some (js "COMPLETE"));
         mkChain (Some (js "COMPLETE"))
           (Some (js "Excellent work! You have successfully completed all stages for: '{{TASK}}'"))
           None ];
     wfInitialPrompt :=
       Some (js "Please implement the following: '{{TASK}}'. When done, say IMPLEMENTED");
     wfOptions := OptionsObject (mkOptions (Some 5) (Some 600) (Some 3) (Some 2)) |}.

(** ** task_chain_launcher.js: the way to the monitor *)

(** The placeholder of the task. *)
Definition taskPlaceholder : jsstring := js "{{TASK}}".

(** The identifier [main] settles on: the one on the command line, or the
    one of the configuration, or, when that is the place holder
    [YOUR_INSTANCE_ID], what [getLatestInstanceId()] answers. *)
Definition launcherInstance (config : TaskConfig) (argInstance : option jsstring)
    (latest : Outcome (option jsstring)) : Outcome (option jsstring) :=
  if truthy argInstance then Returned argInstance
  else if bool_decide (tcInstanceId config = Some (js "YOUR_INSTANCE_ID")) then latest
  else Returned (tcInstanceId config).

(** [main] of the launcher up to the monitor it builds: [parsed] is the
    content of the configuration file, [sent] the answer of
    [sendToInstance] for the initial prompt.  Every exception ends in the
    [catch] of [main]. *)
Definition launcherMonitor (parsed : TaskConfig) (argInstance : option jsstring)
    (latest : Outcome (option jsstring)) (sent : SendResult) : Outcome Monitor :=
  match loadTaskConfig parsed with
  | Threw e => Threw e
  | Returned config =>
      match launcherInstance config argInstance latest with
      | Threw e => Threw e
      | Returned instance =>
          match processedConfig config instance with
          | Threw e => Threw e
          | Returned processed =>
              match replaceTask (tcInitialPrompt config)
                      (default (js "undefined") (tcTaskDescription config)) with
              | Threw e => Threw e
              | Returned initialPrompt =>
                  match sent with
                  | SendThrew e => Threw e
                  | SendFailed err => Threw (js "Failed to send initial prompt: " ++ err)
                  | SendOk =>
                      match constructor processed with
                      | inl e => Threw e
                      | inr monitor => Returned monitor
                      end
                  end
              end
          end
      end
  end.

(** ** quick_task.js: custom stages *)

Section CustomStages.

(** [String.prototype.toUpperCase], whatever it does to a string. *)
Variable toUpperCase : jsstring -> jsstring.






End CustomStages.



(** The chain of the launcher for the chain [cs] of a configuration. *)
Definition launchedChains (task : jsstring) (cs : list Chain) : list Chain :=
  map (fun c => mkChain (keyword c)
                  (Some (replaceAllLiteral taskPlaceholder task (default [] (instruction c))))
                  (nextKeyword c)) cs.

(** ** shared/workflow_utils.js: command lines *)

(** What a flag holds: [true], or the argument that followed it. *)
Inductive FlagValue :=
| FlagTrue
| FlagText (s : jsstring).

(** The options of [parseCommandLineArgs]: two arrays of strings and the
    own properties of [aliases], whose values are strings. *)
Record ParseOptions := mkParseOptions {
  booleanFlags : list jsstring;
  stringFlags : list jsstring;
  aliases : gmap jsstring jsstring
}.

Record ParsedArgs := mkParsedArgs {
  positional : list jsstring;
  flags : gmap jsstring FlagValue
}.

(** The names every object inherits from [Object.prototype]; what they hold
    is truthy and no string. *)
Definition inheritedNames : list jsstring :=
  map js [ "constructor"; "__defineGetter__"; "__defineSetter__"; "hasOwnProperty";
           "__lookupGetter__"; "__lookupSetter__"; "isPrototypeOf";
           "propertyIsEnumerable"; "toString"; "valueOf"; "__proto__";
           "toLocaleString" ]%string.

(** [arg.replace(/^-+/, '')]. *)
Fixpoint stripDashes (arg : jsstring) : jsstring :=
  match arg with
  | [] => []
  | c :: r => if (c =? 45)%N then stripDashes r else arg
  end.

(** [aliases[flagName] || flagName], [None] standing for an inherited
    value. *)
Definition actualFlagOf (aliases : gmap jsstring jsstring) (flagName : jsstring)
    : option jsstring :=
  match aliases !! flagName with
  | Some a => if truthy (Some a) then Some a else Some flagName
  | None => if bool_decide (flagName ∈ inheritedNames) then None else Some flagName
  end.

(** [array.includes(actualFlag)] for an array of strings. *)
Definition listed (names : list jsstring) (actualFlag : option jsstring) : bool :=
  match actualFlag with
  | Some a => bool_decide (a ∈ names)
  | None => false
  end.

(** [result.flags[name] = value]: under the name [__proto__] the assignment
    of a value that is no object changes nothing. *)
Definition setFlag (name : jsstring) (value : FlagValue) (result : ParsedArgs) : ParsedArgs :=
  if bool_decide (name = js "__proto__") then result
  else mkParsedArgs (positional result) (<[name := value]> (flags result)).

(** The loop of [parseCommandLineArgs] over the arguments still to read. *)
Fixpoint parseLoop (o : ParseOptions) (args : list jsstring) (result : ParsedArgs)
    : ParsedArgs :=
  match args with
  | [] => result
  | arg :: rest =>
      if startsWith arg (js "--") || startsWith arg (js "-") then
        let flagName := stripDashes arg in
        let actualFlag := actualFlagOf (aliases o) flagName in
        if listed (booleanFlags o) actualFlag then
          parseLoop o rest (setFlag (default [] actualFlag) FlagTrue result)
        else
          match rest with
          | next :: rest' =>
              if listed (stringFlags o) actualFlag && truthy (Some next)
                 && negb (startsWith next (js "-"))
              then parseLoop o rest' (setFlag (default [] actualFlag) (FlagText next) result)
              else parseLoop o rest (setFlag flagName FlagTrue result)
          | [] => parseLoop o rest (setFlag flagName FlagTrue result)
          end
      else parseLoop o rest (mkParsedArgs (positional result ++ [arg]) (flags result))
  end.

Definition parseCommandLineArgs (args : list jsstring) (o : ParseOptions) : ParsedArgs :=
  parseLoop o args (mkParsedArgs [] ∅).

(** What the loop keeps true of its result, for the arguments [all]: the
    positional arguments and the values of the flags are arguments that do
    not begin with a dash, and only a string flag holds a value. *)
Definition wellFormed (o : ParseOptions) (all : list jsstring) (result : ParsedArgs) : Prop :=
  (forall p, p ∈ positional result -> p ∈ all /\ startsWith p (js "-") = false)
  /\ (forall k v, flags result !! k = Some (FlagText v) ->
        k ∈ stringFlags o /\ v ∈ all /\ v <> [] /\ startsWith v (js "-") = false).

(** [s.split(sep)] for a separator of one code unit. *)
Fixpoint splitOn (sep : N) (s : jsstring) : list jsstring :=
  match s with
  | [] => [[]]
  | c :: r =>
      if (c =? sep)%N then [] :: splitOn sep r
      else match splitOn sep r with
           | l :: ls => (c :: l) :: ls
           | [] => [[c]]
           end
  end.

(** ** quick_task.js: the command line *)

Record QuickTaskArgs := mkQuickTaskArgs {
  qtTask : option jsstring;
  qtInstanceId : option FlagValue;
  qtSessionName : option FlagValue;
  qtCustomName : option FlagValue;
  qtPreset : FlagValue;
  qtCustomStages : option (list jsstring)
}.

Definition quickTaskOptions : ParseOptions :=
  mkParseOptions []
    (map js ["instance"; "stages"; "preset"; "session"; "name"]%string)
    (list_to_map [ (js "i", js "instance"); (js "s", js "stages"); (js "p", js "preset");
                   (js "t", js "session"); (js "n", js "name") ]).

(** Whether the value of a flag is truthy. *)
Definition flagTruthy (v : option FlagValue) : bool :=
  match v with
  | Some FlagTrue => true
  | Some (FlagText s) => truthy (Some s)
  | None => false
  end.

(** [parseArgs(args)]: [split] cannot be called on [true]. *)
Definition parseArgs (args : list jsstring) : Outcome QuickTaskArgs :=
  let parsed := parseCommandLineArgs args quickTaskOptions in
  let orNull (v : option FlagValue) := if flagTruthy v then v else None in
  match (match flags parsed !! js "stages" with
         | Some FlagTrue =>
             Threw (js "TypeError: parsed.flags.stages.split is not a function")
         | Some (FlagText s) =>
             Returned (if truthy (Some s) then Some (splitOn 44 s) else None)
         | None => Returned None
         end) with
  | Threw e => Threw e
  | Returned customStages =>
      Returned
        {| qtTask := head (positional parsed);
           qtInstanceId := orNull (flags parsed !! js "instance");
           qtSessionName := orNull (flags parsed !! js "session");
           qtCustomName := orNull (flags parsed !! js "name");
           qtPreset := if flagTruthy (flags parsed !! js "preset")
                       then default FlagTrue (flags parsed !! js "preset")
                       else FlagText (js "default");
           qtCustomStages := customStages |}
  end.

(** ** tmux_utils.js: reading the pane *)

(** [s.split(sep)] for a separator of the two code units [a], [b]. *)
Fixpoint split2 (a b : N) (s : jsstring) : list jsstring :=
  match s with
  | c :: ((d :: s'') as s') =>
      if (c =? a)%N && (d =? b)%N then [] :: split2 a b s''
      else match split2 a b s' with
           | l :: ls => (c :: l) :: ls
           | [] => [[c]]
           end
  | _ => [s]
  end.

(** The separator [readFromInstance] splits and joins on: a backslash and
    the letter n. *)
Definition backslashN : jsstring := [92%N; 110%N].

(** What [readFromInstance] keeps of the captured pane, for a whole number
    of [lines]. *)
Definition lastLines (lines : Z) (output : jsstring) : jsstring :=
  if 0 <? lines then
    let outputLines := split2 92 110 output in
    if lines <? Z.of_nat (length outputLines)
    then joinWith backslashN (drop (length outputLines - Z.to_nat lines) outputLines)
    else output
  else output.

(** What [executeTmuxCommand] answers. *)
Inductive TmuxResult :=
| TmuxOk (output : jsstring)
| TmuxFailed (err : jsstring).

(** [readFromInstance(instanceId, lines)], with the answers of tmux:
    [hasSession] for has-session, [capturePane] for capture-pane. *)
Definition readFromInstance (hasSession : jsstring -> TmuxResult)
    (capturePane : jsstring -> TmuxResult) (instanceId : jsstring) (lines : Z)
    : ReadResult :=
  let sessionName :=
    if negb (includes instanceId (js "_"))
       || (negb (startsWith instanceId (js "auto_"))
           && negb (startsWith instanceId (js "spec_")))
    then instanceId
    else js "claude_" ++ instanceId in
  match hasSession sessionName with
  | TmuxFailed _ => ReadFailed (js "Session " ++ sessionName ++ js " does not exist")
  | TmuxOk _ =>
      match capturePane sessionName with
      | TmuxFailed err =>
          ReadFailed (js "Failed to read from " ++ sessionName ++ js ": " ++ err)
      | TmuxOk output => ReadOk (lastLines lines output)
      end
  end.

(** ** tmux_utils.js: listing the instances *)

Record Instance := mkInstance {
  instInstanceId : jsstring;
  instSessionName : jsstring;
  instCreated : jsstring
}.

(** What [listInstances] answers: the instances with [success] true, or an
    error with [success] false. *)
Inductive ListResult :=
| Listed (instances : list Instance)
| ListFailed (err : jsstring).

Section ListInstances.

(** [new Date(parseInt(created) * 1000).toISOString()], which throws for a
    date that is not valid; [created] is [undefined] for a line without
    bar. *)
Variable isoDate : option jsstring -> Outcome jsstring.

(** One round of the loop over the lines: the instance pushed, if any. *)
Definition instanceOfLine (line : jsstring) : Outcome (option Instance) :=
  let cleanLine := filter (fun c => c <> 34%N) line in
  let parts := splitOn 124 cleanLine in
  let sessionName := head parts in
  let created := parts !! 1%nat in
  if truthy sessionName && startsWith (default [] sessionName) (js "claude_") then
    let instanceId := replaceFirst (default [] sessionName) (js "claude_") [] in
    match isoDate created with
    | Threw e => Threw e
    | Returned date => Returned (Some (mkInstance instanceId (default [] sessionName) date))
    end
  else Returned None.

(** The loop, with the instances pushed so far. *)
Fixpoint collectInstances (lines : list jsstring) (instances : list Instance)
    : Outcome (list Instance) :=
  match lines with
  | [] => Returned instances
  | line :: rest =>
      match instanceOfLine line with
      | Threw e => Threw e
      | Returned (Some instance) => collectInstances rest (instances ++ [instance])
      | Returned None => collectInstances rest instances
      end
  end.

(** [listInstances()], with the answer of tmux to list-sessions. *)
Definition listInstances (listSessions : TmuxResult) : ListResult :=
  match listSessions with
  | TmuxFailed _ => Listed []
  | TmuxOk output =>
      let lines := filter (fun line => (0 < length line)%nat) (split2 92 110 output) in
      match collectInstances lines [] with
      | Returned instances => Listed instances
      | Threw message => ListFailed (js "Failed to list instances: " ++ message)
      end
  end.

End ListInstances.

(** * Properties *)

(** ** Strings *)

Section StringFacts.

Implicit Types s p r a b : jsstring.

Lemma streq_eq a b : streq a b = true <-> a = b.
Proof.
  revert b. induction a as [|c a IH]; intros [|d b]; simpl; try easy.
  rewrite andb_true_iff, IH, N.eqb_eq. split.
  - intros [-> ->]. reflexivity.
  - intros [= -> ->]. auto.
Qed.

Lemma streq_refl a : streq a a = true.
Proof. apply streq_eq. reflexivity. Qed.

Lemma startsWith_app s p : startsWith (p ++ s) p = true.
Proof.
  induction p as [|c p IH]; simpl; [reflexivity|].
  rewrite N.eqb_refl. exact IH.
Qed.

Lemma startsWith_inv s p : startsWith s p = true -> exists r, s = p ++ r.
Proof.
  revert s. induction p as [|c p IH]; intros s H.
  - exists s. reflexivity.
  - destruct s as [|d s]; simpl in H; [discriminate|].
    apply andb_true_iff in H as [Hc Hp]. apply N.eqb_eq in Hc as ->.
    destruct (IH _ Hp) as [r ->]. exists r. reflexivity.
Qed.

Lemma startsWith_iff s p : startsWith s p = true <-> exists r, s = p ++ r.
Proof.
  split; [apply startsWith_inv|]. intros [r ->]. apply startsWith_app.
Qed.

Lemma endsWith_iff s p : endsWith s p = true <-> exists r, s = r ++ p.
Proof.
  unfold endsWith. rewrite startsWith_iff. split; intros [r H].
  - exists (rev r). rewrite <- (rev_involutive s), H, rev_app_distr.
    rewrite rev_involutive. reflexivity.
  - exists (rev r). rewrite H, rev_app_distr. reflexivity.
Qed.

Lemma startsWith_length s p : startsWith s p = true -> (length p <= length s)%nat.
Proof.
  intros [r ->]%startsWith_inv. rewrite length_app. lia.
Qed.

Lemma includes_length s p : includes s p = true -> (length p <= length s)%nat.
Proof.
  induction s as [|c s IH]; cbn [includes]; intros H.
  - rewrite orb_false_r in H. apply startsWith_length in H. exact H.
  - apply orb_true_iff in H as [H|H].
    + apply startsWith_length in H. exact H.
    + apply IH in H. simpl. lia.
Qed.

Lemma includes_longer s p : (length s < length p)%nat -> includes s p = false.
Proof.
  intros H. destruct (includes s p) eqn:E; [|reflexivity].
  apply includes_length in E. lia.
Qed.

Lemma trimStart_length s : (length (trimStart s) <= length s)%nat.
Proof.
  induction s as [|c s IH]; simpl; [lia|].
  destruct (isWhiteSpace c); simpl; lia.
Qed.

Lemma trim_length s : (length (trim s) <= length s)%nat.
Proof.
  unfold trim, trimEnd. rewrite length_rev.
  etransitivity; [apply trimStart_length|]. rewrite length_rev.
  apply trimStart_length.
Qed.

(** A prefix as long as the whole is the whole. *)
Lemma startsWith_full s p :
  startsWith s p = true -> (length s <= length p)%nat -> s = p.
Proof.
  intros [r ->]%startsWith_inv H. rewrite length_app in H.
  destruct r; [apply app_nil_r|simpl in H; lia].
Qed.

Lemma endsWith_full s p :
  endsWith s p = true -> (length s <= length p)%nat -> s = p.
Proof.
  intros [r ->]%endsWith_iff H. rewrite length_app in H.
  destruct r; [reflexivity|simpl in H; lia].
Qed.

Lemma stripMarker_length s : (length (stripMarker s) <= length s)%nat.
Proof.
  destruct s as [|c r]; simpl; [lia|].
  destruct (c =? MARKER)%N; simpl; [|lia].
  pose proof (trimStart_length r). lia.
Qed.

Lemma stripMarker_same_length s :
  length (stripMarker s) = length s -> stripMarker s = s.
Proof.
  destruct s as [|c r]; simpl; [reflexivity|].
  destruct (c =? MARKER)%N; simpl; [|reflexivity].
  pose proof (trimStart_length r). lia.
Qed.

End StringFacts.

(** ** The completion-signal detector *)

(** The array of patterns is the fixed patterns together with the keyword
    behind each of the six prefixes. *)
Lemma containsIgnoredPattern_split T K :
  containsIgnoredPattern T K =
  existsb (includes T) fixedPatterns
  || existsb (fun p => includes T (p ++ K)) keywordPrefixes.
Proof.
  unfold containsIgnoredPattern.
  generalize (includes T). intros f.
  unfold ignoredPatterns, fixedPatterns, keywordPrefixes.
  cbn [existsb].
  repeat match goal with
  | |- context [f ?x] =>
      destruct (f x); [cbn [orb]; rewrite ?orb_true_r; reflexivity|cbn [orb]]
  end.
  reflexivity.
Qed.

Lemma js_length_pos (p : string) : p <> EmptyString -> (0 < length (js p))%nat.
Proof. destruct p; [congruence|]. intros _. simpl. lia. Qed.

(** On the keyword itself as a line, the patterns that carry the keyword
    are too long to occur. *)
Lemma keywordPatterns_absent T K :
  (length T <= length K)%nat ->
  existsb (fun p => includes T (p ++ K)) keywordPrefixes = false.
Proof.
  intros H. unfold keywordPrefixes. cbn [existsb].
  rewrite !includes_longer; [reflexivity|..];
    rewrite length_app; simpl; lia.
Qed.

Lemma keywordPatternTest_self K : keywordPatternTest K K = true.
Proof.
  unfold keywordPatternTest.
  rewrite <- (app_nil_r K) at 1. rewrite startsWith_app.
  rewrite drop_all. reflexivity.
Qed.

(** Whatever accepts the keyword as a line has found the line, trimmed,
    equal to the keyword. *)
Lemma accepted_self_trimmed K :
  isActualCompletionSignal K K = true -> trim K = K.
Proof.
  unfold isActualCompletionSignal.
  pose proof (trim_length K) as Hlen.
  destruct (containsIgnoredPattern (trim K) K); [discriminate|].
  destruct (isNumberedItem (trim K)); [discriminate|].
  destruct (endsWith K (js ":")).
  - unfold keywordPatternTest.
    intros [H|H]%orb_true_iff; apply andb_true_iff in H as [H _].
    + symmetry. apply startsWith_inv in H as [r Hr].
      rewrite Hr in Hlen |- *. rewrite length_app in Hlen.
      destruct r; [rewrite app_nil_r; reflexivity|simpl in Hlen; lia].
    + pose proof (stripMarker_length (trim K)) as Hs.
      pose proof (startsWith_length _ _ H) as Hk.
      assert (stripMarker (trim K) = trim K) as E
        by (apply stripMarker_same_length; lia).
      rewrite E in H. symmetry.
      apply startsWith_inv in H as [r Hr].
      rewrite Hr in Hlen |- *. rewrite length_app in Hlen.
      destruct r; [rewrite app_nil_r; reflexivity|simpl in Hlen; lia].
  - intros [[H|H]%orb_true_iff|H]%orb_true_iff.
    + apply streq_eq in H. exact H.
    + apply streq_eq in H. rewrite H in Hlen. simpl in Hlen. lia.
    + apply andb_true_iff in H as [H _]. apply andb_true_iff in H as [_ H].
      apply endsWith_full; assumption.
Qed.

(** C1, amended.  The detector accepts a keyword standing alone on its line
    exactly when the keyword has no white space at either end, contains
    none of the fixed mention substrings, and does not begin like an item of
    a numbered list: the rejection rules run first, also on the keyword. *)
Theorem C1_keyword_alone_accepted_iff (K : jsstring) :
  isActualCompletionSignal K K = true <->
  trim K = K
  /\ existsb (includes K) fixedPatterns = false
  /\ isNumberedItem K = false.
Proof.
  split.
  - intros H. pose proof (accepted_self_trimmed K H) as Ht.
    split; [exact Ht|].
    unfold isActualCompletionSignal in H. rewrite Ht in H.
    rewrite containsIgnoredPattern_split in H.
    destruct (existsb (includes K) fixedPatterns); [discriminate|].
    destruct (isNumberedItem K); [|auto].
    destruct (existsb _ keywordPrefixes); discriminate.
  - intros (Ht & Hp & Hn). unfold isActualCompletionSignal.
    rewrite Ht, containsIgnoredPattern_split, Hp, Hn.
    rewrite keywordPatterns_absent by lia. simpl.
    destruct (endsWith K (js ":")).
    + rewrite keywordPatternTest_self. reflexivity.
    + rewrite streq_refl. reflexivity.
Qed.

Lemma C1_keyword_alone_accepted_witness :
  isActualCompletionSignal (js "TESTED") (js "TESTED") = true.
Proof.
  apply (proj2 (C1_keyword_alone_accepted_iff (js "TESTED"))).
  vm_compute. auto.
Defined.

(** C1 as stated fails: the keyword "Documented", alone on its line, is
    rejected, because it contains the mention substring "Document". *)
Lemma C1_counterexample :
  isActualCompletionSignal (js "Documented") (js "Documented") = false.
Proof. vm_compute. reflexivity. Qed.

(** C9, amended.  For a keyword that does not end with a colon and a line
    that passes the rejection rules, the detector accepts exactly when the
    trimmed line is the keyword, or the marker, a space and the keyword, or
    the marker, at most 8 further code units and the keyword (fewer than 10
    code units in all before the keyword, the marker counted). *)
Theorem C9_acceptance_rule (L K : jsstring) :
  endsWith K (js ":") = false ->
  passesRejection L K ->
  (isActualCompletionSignal L K = true <->
   trim L = K
   \/ trim L = MARKER :: js " " ++ K
   \/ exists mid, trim L = MARKER :: mid ++ K /\ (length mid <= 8)%nat).
Proof.
  intros Hc [Hp Hn]. unfold isActualCompletionSignal.
  rewrite Hp, Hn, Hc. split.
  - intros [[H|H]%orb_true_iff|H]%orb_true_iff.
    + left. apply streq_eq. exact H.
    + right. left. apply streq_eq. exact H.
    + apply andb_true_iff in H as [H Hl]. apply andb_true_iff in H as [Hs He].
      apply Nat.ltb_lt in Hl.
      apply endsWith_iff in He as [q Hq].
      destruct q as [|c mid]; [left; exact Hq|].
      right. right. exists mid. rewrite Hq in Hs, Hl |- *.
      cbn [startsWith app] in Hs. apply andb_true_iff in Hs as [Hm _].
      apply N.eqb_eq in Hm. subst c. split; [reflexivity|].
      simpl in Hl. rewrite length_app in Hl. lia.
  - intros [H|[H|(mid & H & Hl)]]; rewrite H.
    + rewrite streq_refl. reflexivity.
    + rewrite streq_refl. rewrite orb_true_r. reflexivity.
    + assert (startsWith (MARKER :: mid ++ K) [MARKER] = true) as ->
        by (cbn [startsWith]; rewrite N.eqb_refl; reflexivity).
      assert (endsWith (MARKER :: mid ++ K) K = true) as ->
        by (apply endsWith_iff; exists (MARKER :: mid); reflexivity).
      assert ((length (MARKER :: mid ++ K) <? length K + 10)%nat = true) as ->
        by (apply Nat.ltb_lt; simpl; rewrite length_app; lia).
      rewrite orb_true_r. reflexivity.
Qed.

Lemma C9_acceptance_rule_witness :
  isActualCompletionSignal (MARKER :: js " ok: DONE") (js "DONE") = true.
Proof.
  apply (proj2 (C9_acceptance_rule (MARKER :: js " ok: DONE") (js "DONE")
                  eq_refl (conj eq_refl eq_refl))).
  right. right. exists (js " ok: "). split; [reflexivity|simpl; lia].
Defined.

(** C9 as stated fails: with 9 code units between the marker and the
    keyword the line satisfies rule 4 as the document words it, passes the
    rejection rules, and is rejected. *)
Lemma C9_counterexample :
  let K := js "DONE" in
  let L := MARKER :: js "123456789" ++ js "DONE" in
  endsWith K (js ":") = false
  /\ passesRejection L K
  /\ acceptedByRule4AsWritten L K
  /\ isActualCompletionSignal L K = false.
Proof.
  cbv zeta. split; [reflexivity|]. split; [split; reflexivity|].
  split; [|vm_compute; reflexivity].
  right. right. exists (js "123456789"). split; [reflexivity|simpl; lia].
Qed.

(** ** Instance identifiers and session names *)

Lemma replaceFirst_prefix (p s : jsstring) : replaceFirst (p ++ s) p [] = s.
Proof.
  unfold replaceFirst.
  assert (indexOf (p ++ s) p = Some O) as ->.
  { pose proof (startsWith_app s p) as H.
    destruct (p ++ s); cbn [indexOf]; rewrite H; reflexivity. }
  simpl. apply drop_app_length.
Qed.

(** C10.  An instance identifier that does not start with "claude_" comes
    back from the conversion to a session name and back. *)
Theorem C10_session_name_round_trip (instanceId : jsstring) :
  startsWith instanceId (js "claude_") = false ->
  sessionNameToInstanceId (instanceIdToSessionName instanceId) = instanceId.
Proof.
  intros H. unfold instanceIdToSessionName, normalizeInstanceId.
  destruct (negb (includes instanceId (js "_"))
            || negb (startsWith instanceId (js "auto_"))
               && negb (startsWith instanceId (js "spec_"))).
  - unfold sessionNameToInstanceId. rewrite H. reflexivity.
  - unfold sessionNameToInstanceId. rewrite startsWith_app.
    apply replaceFirst_prefix.
Qed.

Lemma C10_session_name_round_trip_witness :
  sessionNameToInstanceId (instanceIdToSessionName (js "spec_1_1_123"))
  = js "spec_1_1_123".
Proof. apply (C10_session_name_round_trip (js "spec_1_1_123")). reflexivity. Defined.

(** ** The retrying dispatcher *)

Section Dispatch.

Variable send : Z -> SendResult.
Variable text : option jsstring.
Variable m : Monitor.

Lemma failedAttempts_S k :
  failedAttempts m text (S k) =
  SendToInstance (instanceId m) text :: Sleep (retryDelay m) :: failedAttempts m text k.
Proof. reflexivity. Qed.



End Dispatch.



(** ** The constructor *)

Lemma mapSet_ok (P : option jsstring * ChainEntry -> Prop) k v m :
  Forall P m -> P (k, v) -> Forall P (mapSet k v m).
Proof.
  intros Hm Hv. induction Hm as [|[k' v'] m Hx Hm IH]; cbn [mapSet].
  - constructor; [exact Hv|constructor].
  - destruct (bool_decide (k' = k)); constructor; assumption.
Qed.

Lemma buildKeywordMap_ok cs : forall i m,
  Forall (fun ke => keyword (entryChain (snd ke)) = fst ke) m ->
  Forall (fun ke => keyword (entryChain (snd ke)) = fst ke) (buildKeywordMap cs i m).
Proof.
  induction cs as [|c cs IH]; intros i m Hm; cbn [buildKeywordMap]; [exact Hm|].
  apply IH. apply mapSet_ok; [exact Hm|reflexivity].
Qed.

(** The constructor builds a map whose keys are the keywords of its entries. *)
Lemma constructor_keywordMapOk config m0 :
  constructor config = inr m0 -> keywordMapOk m0.
Proof.
  unfold constructor.
  destruct (negb (truthy (cfgInstanceId config))); [discriminate|].
  destruct (cfgChains config) as [| |cs]; try discriminate.
  intros [= <-]. unfold keywordMapOk. cbn [keywordMap].
  apply buildKeywordMap_ok. constructor.
Qed.

(** C7, amended.  The constructor raises an error in two cases only: the
    instance identifier is missing or empty, or [chains] is missing or not
    an array.  It does not look at the stages: with an identifier, every
    array of chains, whatever its stages, gives a monitor that is not yet
    active. *)
Theorem C7_constructor_checks (config : Config) :
  (forall e, constructor config = inl e <->
     (truthy (cfgInstanceId config) = false /\ e = missingInstanceId)
     \/ (truthy (cfgInstanceId config) = true
         /\ (cfgChains config = ChainsAbsent \/ cfgChains config = ChainsNotArray)
         /\ e = missingChains))
  /\ (forall cs,
        truthy (cfgInstanceId config) = true ->
        cfgChains config = ChainsArray cs ->
        exists m, constructor config = inr m
                  /\ chains m = cs /\ isActive m = false /\ executedChains m = []).
Proof.
  unfold constructor, missingInstanceId, missingChains.
  destruct (truthy (cfgInstanceId config)); cbn [negb].
  - split.
    + intros e. destruct (cfgChains config) as [| |cs].
      * split; [intros [= <-]; right; auto|]. intros [[[=] _]|(_ & _ & ->)]. reflexivity.
      * split; [intros [= <-]; right; auto|]. intros [[[=] _]|(_ & _ & ->)]. reflexivity.
      * split; [discriminate|]. intros [[[=] _]|(_ & [[=]|[=]] & _)].
    + intros cs _ ->. eexists. split; [reflexivity|]. auto.
  - split.
    + intros e. split; [intros [= <-]; left; auto|].
      intros [[_ ->]|([=] & _)]. reflexivity.
    + intros cs [=].
Qed.

Lemma C7_constructor_checks_witness :
  exists m, constructor threeStages = inr m
            /\ chains m = [stage1; stage2; stage3]
            /\ isActive m = false /\ executedChains m = [].
Proof.
  apply (proj2 (C7_constructor_checks threeStages)); reflexivity.
Defined.

(** C7 as stated fails: an empty chain, a stage without keyword and a next
    keyword that leads nowhere are invalid for the design document, and the
    constructor accepts the three of them. *)
Lemma C7_counterexample :
  Forall (fun cs =>
            invalidAsDocumented cs = true
            /\ exists m, constructor (mkConfig (Some (js "test")) (ChainsArray cs) None)
                         = inr m)
         [ []; [stageWithoutKeyword]; [stageToNowhere; stage2; stage3] ].
Proof.
  repeat constructor; eexists; reflexivity.
Qed.

(** ** What each method does *)

Lemma events_app t1 t2 : events (t1 ++ t2) = events t1 ++ events t2.
Proof. unfold events. apply omap_app. Qed.

Lemma retryLoop_total send text fuel : forall a m,
  exists b ts, retryLoop send text fuel a m = (Returned b, m, ts) /\ events ts = [].
Proof.
  induction fuel as [|fuel IH]; intros a m; cbn [retryLoop]; monad_unfold.
  - eauto.
  - destruct (a <=? retryAttempts m); [|eauto].
    destruct (IH (a + 1) m) as (b & ts & E & Hts).
    destruct (send a); [eauto| |];
      (destruct (a <? retryAttempts m); monad_unfold; rewrite E; simpl;
       eexists _, _; (split; [reflexivity|exact Hts])).
Qed.

Lemma sendInstructionWithRetry_total send text m :
  exists b ts, sendInstructionWithRetry send text m = (Returned b, m, ts)
               /\ events ts = [].
Proof.
  unfold sendInstructionWithRetry. monad_unfold.
  destruct (retryLoop_total send text (Z.to_nat (retryAttempts m)) 1 m)
    as (b & ts & -> & Hts).
  eauto.
Qed.

Lemma stop_active m :
  isActive m = true -> stop m = (Returned tt, stopped_state m, stop_trace m).
Proof.
  intros H. unfold stop, stopped_state, stop_trace. monad_unfold.
  rewrite H. simpl. destruct (interval m); reflexivity.
Qed.

Lemma stop_inactive m : isActive m = false -> stop m = (Returned tt, m, []).
Proof. intros H. unfold stop. monad_unfold. rewrite H. reflexivity. Qed.

Lemma scanLines_spec k lines : forall u m r m' t,
  scanLines k lines u m = (r, m', t) ->
  t = [] /\ ((r <> Returned true /\ m' = m)
            \/ (r = Returned true /\ m' = detectedAt k m)).
Proof.
  induction lines as [|line rest IH]; intros u m r m' t; cbn [scanLines].
  - monad_unfold. intros [= <- <- <-]. split; [reflexivity|]. left. split; [discriminate|reflexivity].
  - destruct k as [kw|].
    + cbv zeta.
      repeat match goal with
      | |- context [if ?b then _ else _] =>
          lazymatch b with
          | context [scanLines] => fail
          | _ => destruct b
          end
      end; try (apply IH).
      all: monad_unfold; intros [= <- <- <-]; split; [reflexivity|];
        right; split; reflexivity.
    + monad_unfold. intros [= <- <- <-]. split; [reflexivity|].
      left. split; [discriminate|reflexivity].
Qed.

Lemma detectKeywordInOutput_spec k m r m' t :
  detectKeywordInOutput k m = (r, m', t) ->
  t = [] /\ ((r <> Returned true /\ m' = m)
            \/ (passesOffsetCheck k m /\ r = Returned true /\ m' = detectedAt k m)).
Proof.
  unfold detectKeywordInOutput. monad_unfold.
  destruct (negb (includes (outputBuffer m) (keywordText k))).
  { intros [= <- <- <-]. split; [reflexivity|]. left. split; [discriminate|reflexivity]. }
  destruct (Z.leb_spec (lastIndexOf (outputBuffer m) (keywordText k)) (lastPositionOf k m)).
  { intros [= <- <- <-]. split; [reflexivity|]. left. split; [discriminate|reflexivity]. }
  destruct (scanLines k (splitLines (outputBuffer m)) false m) as [[r1 m1] t1] eqn:E.
  apply scanLines_spec in E as [-> E].
  intros [= <- <- <-]. split; [reflexivity|].
  destruct E as [E|[E1 E2]]; [left; exact E|right; auto].
Qed.

Lemma stop_eq m : stop m = (Returned tt, afterStop m, stopTraceOf m).
Proof.
  unfold afterStop, stopTraceOf. destruct (isActive m) eqn:E.
  - apply stop_active, E.
  - apply stop_inactive, E.
Qed.

Lemma lifecycle_app t1 t2 : lifecycle (t1 ++ t2) = lifecycle t1 ++ lifecycle t2.
Proof. unfold lifecycle. rewrite events_app. apply List.filter_app. Qed.

Lemma lifecycle_emit e l :
  lifecycle (Emit e :: l) = if isOutcomeEvent e then e :: lifecycle l else lifecycle l.
Proof. unfold lifecycle. cbn. destruct (isOutcomeEvent e); reflexivity. Qed.

Lemma lifecycle_silent t : events t = [] -> lifecycle t = [].
Proof. unfold lifecycle. intros ->. reflexivity. Qed.

Lemma lifecycle_stop_trace m : lifecycle (stop_trace m) = [stopped].
Proof. unfold stop_trace. destruct (interval m); reflexivity. Qed.

Lemma isActive_stopped_state m : isActive (stopped_state m) = false.
Proof. unfold stopped_state. destruct (interval m); reflexivity. Qed.

Lemma executedChains_stopped_state m :
  executedChains (stopped_state m) = executedChains m.
Proof. unfold stopped_state. destruct (interval m); reflexivity. Qed.

Lemma executedChains_afterStop m : executedChains (afterStop m) = executedChains m.
Proof.
  unfold afterStop. destruct (isActive m); [apply executedChains_stopped_state|reflexivity].
Qed.

(** What [executeChainAction] does, case by case. *)
Lemma executeChainAction_spec now send e m :
  let c := entryChain e in
  let m1 := set_executedChains (executedChains m ++ [executionOf now e]) m in
  (alreadyExecuted e m = true
   /\ executeChainAction now send e m = (Returned tt, m, []))
  \/ (alreadyExecuted e m = false
      /\ exists b ts,
          sendInstructionWithRetry send (instruction c) m1 = (Returned b, m1, ts)
          /\ events ts = []
          /\ executeChainAction now send e m =
             (Returned tt,
              (if b then
                 if truthy (nextKeyword c)
                 then set_currentChainIndex (chainIndex e + 1)%nat
                        (set_currentKeyword (nextKeyword c) m1)
                 else afterStop m1
               else afterStop m1),
              Emit (chain_executed (keyword c) (instruction c) (chainIndex e))
              :: ts ++
                 (if b then
                    if truthy (nextKeyword c) then []
                    else Emit (chain_complete (length (executedChains m1))
                                 (executedChains m1)) :: stopTraceOf m1
                  else Emit (chain_failed (keyword c) (instruction c) (chainIndex e))
                       :: stopTraceOf m1))).
Proof.
  intros c m1. unfold alreadyExecuted. fold c.
  destruct (existsb (isExecuted (keyword c) (chainIndex e)) (executedChains m)) eqn:Hd.
  - left. split; [reflexivity|].
    unfold executeChainAction. monad_unfold. fold c. rewrite Hd. reflexivity.
  - right. split; [reflexivity|].
    destruct (sendInstructionWithRetry_total send (instruction c) m1) as (b & ts & Es & Hts).
    exists b, ts. split; [exact Es|]. split; [exact Hts|].
    unfold executeChainAction. monad_unfold. fold c. rewrite Hd.
    cbn [fst snd]. fold m1. unfold executionOf in m1. fold c in m1. fold m1.
    cbn [fst snd]. rewrite Es. destruct b; cbn [negb].
    + destruct (truthy (nextKeyword c)).
      * cbn. rewrite !app_nil_r. reflexivity.
      * rewrite stop_eq. cbn. rewrite ?app_nil_r. reflexivity.
    + rewrite stop_eq. cbn. rewrite ?app_nil_r. reflexivity.
Qed.

(** The loop of [checkForKeywords] leaves the monitor alone until the first
    keyword it detects, and acts on that one only. *)
Lemma checkEntries_spec now send entries : forall m r m' t,
  checkEntries now send entries m = (r, m', t) ->
  (m' = m /\ t = [])
  \/ (exists k e, In (k, e) entries /\ passesOffsetCheck k m
                  /\ executeChainAction now send e (detectedAt k m) = (r, m', t)).
Proof.
  induction entries as [|[k e] rest IH]; intros m r m' t; cbn [checkEntries].
  - monad_unfold. intros [= <- <- <-]. left. auto.
  - monad_unfold.
    destruct (detectKeywordInOutput k m) as [[r1 m1] t1] eqn:E.
    apply detectKeywordInOutput_spec in E as [-> [[Hr ->]|(Hp & -> & ->)]].
    + destruct r1 as [[|]|err]; [congruence| |].
      * destruct (checkEntries now send rest m) as [[r2 m2] t2] eqn:E2.
        intros [= <- <- <-]. apply IH in E2 as [[-> ->]|(k' & e' & Hin & Hp & E2)].
        -- left. auto.
        -- right. exists k', e'. split; [right; exact Hin|]. split; [exact Hp|].
           exact E2.
      * intros [= <- <- <-]. left. auto.
    + destruct (executeChainAction now send e (detectedAt k m)) as [[r2 m2] t2] eqn:E2.
      intros [= <- <- <-]. right. exists k, e. split; [left; reflexivity|].
      split; [exact Hp|]. exact E2.
Qed.

Lemma outcomeReported_failed k i idx :
  outcomeReported [chain_failed k i idx; stopped].
Proof. right. right. left. eauto. Qed.

Lemma outcomeReported_complete n ex :
  outcomeReported [chain_complete n ex; stopped].
Proof. right. right. right. eauto. Qed.

Lemma outcomeReported_timeout c n :
  outcomeReported [stopped; timeout_event c n].
Proof. right. left. eauto. Qed.

Lemma executeChainAction_summary now send e m r m' t :
  isActive m = true ->
  executeChainAction now send e m = (r, m', t) ->
  r = Returned tt
  /\ extendsByNew (executedChains m) (executedChains m')
  /\ pollReport m' t.
Proof.
  intros Ha E.
  destruct (executeChainAction_spec now send e m) as [[Hd E']|(Hd & b & ts & _ & Hts & E')];
    rewrite E' in E; injection E as <- <- <-.
  - split; [reflexivity|]. split; [left; reflexivity|]. left. auto.
  - split; [reflexivity|].
    set (m1 := set_executedChains (executedChains m ++ [executionOf now e]) m).
    assert (isActive m1 = true) as Ha1 by exact Ha.
    assert (Hnew : extendsByNew (executedChains m) (executedChains m1)).
    { right. exists (executionOf now e). split; [reflexivity|exact Hd]. }
    assert (Hstop : isActive (afterStop m1) = false).
    { unfold afterStop. rewrite Ha1. apply isActive_stopped_state. }
    assert (Hlt : lifecycle (stopTraceOf m1) = [stopped]).
    { unfold stopTraceOf. rewrite Ha1. apply lifecycle_stop_trace. }
    unfold pollReport.
    rewrite lifecycle_emit, lifecycle_app, (lifecycle_silent ts Hts).
    cbn [isOutcomeEvent app].
    destruct b; [destruct (truthy (nextKeyword (entryChain e)))|].
    + split; [exact Hnew|]. left. split; [exact Ha|reflexivity].
    + rewrite executedChains_afterStop. split; [exact Hnew|].
      right. split; [exact Hstop|].
      rewrite lifecycle_emit, Hlt. apply outcomeReported_complete.
    + rewrite executedChains_afterStop. split; [exact Hnew|].
      right. split; [exact Hstop|].
      rewrite lifecycle_emit, Hlt. apply outcomeReported_failed.
Qed.

Lemma checkEntries_summary now send entries m r m' t :
  isActive m = true ->
  checkEntries now send entries m = (r, m', t) ->
  extendsByNew (executedChains m) (executedChains m') /\ pollReport m' t.
Proof.
  intros Ha E. apply checkEntries_spec in E as [[-> ->]|(k & e & _ & _ & E)].
  - split; [left; reflexivity|]. left. auto.
  - apply executeChainAction_summary in E as (_ & Hn & Hr); [|exact Ha].
    split; [exact Hn|exact Hr].
Qed.

Lemma checkOutputResume_summary now read send m r m' t :
  isActive m = true ->
  checkOutputResume now read send m = (r, m', t) ->
  extendsByNew (executedChains m) (executedChains m') /\ pollReport m' t.
Proof.
  intros Ha. unfold checkOutputResume. destruct read as [output|err|err].
  - unfold checkForKeywords. monad_unfold. cbn [fst snd].
    match goal with
    | |- context [checkEntries now send ?es ?m2] =>
        destruct (checkEntries now send es m2) as [[r2 m2'] t2] eqn:E
    end.
    apply checkEntries_summary in E as [Hn Hr]; [|exact Ha].
    intros [= <- <- <-]. split; [exact Hn|exact Hr].
  - monad_unfold. intros [= <- <- <-]. split; [left; reflexivity|]. left. auto.
  - monad_unfold. intros [= <- <- <-]. split; [left; reflexivity|]. left. auto.
Qed.

(** The first part of a poll on an active monitor: the timeout, or the read. *)
Lemma checkOutputBegin_active now m :
  isActive m = true ->
  let m1 := set_pollCount (S (pollCount m)) m in
  checkOutputBegin now m =
  if now - default 0 (startTime m) >? timeout m then
    (Returned false, stopped_state m1,
     stop_trace m1
     ++ [Emit (timeout_event (currentChainIndex m) (length (executedChains m)))])
  else (Returned true, m1, [ReadFromInstance (instanceId m) 200]).
Proof.
  intros Ha m1. unfold checkOutputBegin. monad_unfold. rewrite Ha. cbn [negb fst snd].
  fold m1. change (timeout m1) with (timeout m).
  destruct (now - default 0 (startTime m) >? timeout m).
  - rewrite (stop_active m1 Ha). cbn. rewrite ?app_nil_r. reflexivity.
  - reflexivity.
Qed.

Lemma checkOutputBegin_inactive now m :
  isActive m = false -> checkOutputBegin now m = (Returned false, m, []).
Proof. intros Ha. unfold checkOutputBegin. monad_unfold. rewrite Ha. reflexivity. Qed.

Lemma lifecycle_timeout m c n :
  lifecycle (stop_trace m ++ [Emit (timeout_event c n)]) = [stopped; timeout_event c n].
Proof. rewrite lifecycle_app, lifecycle_stop_trace. reflexivity. Qed.

Lemma checkOutput_summary now read send m r m' t :
  isActive m = true ->
  checkOutput now read send m = (r, m', t) ->
  extendsByNew (executedChains m) (executedChains m') /\ pollReport m' t.
Proof.
  intros Ha. unfold checkOutput.
  unfold mbind, M_bind. rewrite (checkOutputBegin_active now m Ha). cbv zeta.
  destruct (now - default 0 (startTime m) >? timeout m).
  - unfold mret, M_ret. intros [= <- <- <-]. rewrite app_nil_r.
    rewrite executedChains_stopped_state. split; [left; reflexivity|].
    right. split; [apply isActive_stopped_state|].
    rewrite lifecycle_timeout. apply outcomeReported_timeout.
  - destruct (checkOutputResume now read send (set_pollCount (S (pollCount m)) m))
      as [[r2 m2] t2] eqn:E.
    apply checkOutputResume_summary in E as [Hn Hr]; [|exact Ha].
    intros [= <- <- <-]. split; [exact Hn|exact Hr].
Qed.

Lemma tick_inactive now read send m :
  isActive m = false -> tick now read send m = (Returned tt, m, []).
Proof.
  intros Ha. unfold tick, checkOutput. monad_unfold. destruct (interval m); [|reflexivity].
  fold (@mbind M _ bool unit). unfold mbind, M_bind, mret, M_ret.
  rewrite (checkOutputBegin_inactive now m Ha). reflexivity.
Qed.

Lemma tick_summary now read send m r m' t :
  isActive m = true ->
  tick now read send m = (r, m', t) ->
  r = Returned tt
  /\ extendsByNew (executedChains m) (executedChains m')
  /\ pollReport m' t.
Proof.
  intros Ha. unfold tick. monad_unfold. destruct (interval m).
  - destruct (checkOutput now read send m) as [[r1 m1] t1] eqn:E.
    apply checkOutput_summary in E as [Hn Hr]; [|exact Ha].
    destruct r1 as [[]|err]; intros [= <- <- <-].
    + auto.
    + split; [reflexivity|]. split; [exact Hn|].
      unfold pollReport in *. rewrite lifecycle_app.
      change (lifecycle [Emit (error err)]) with (@nil Event).
      rewrite !app_nil_r. exact Hr.
  - intros [= <- <- <-]. split; [reflexivity|]. split; [left; reflexivity|].
    left. auto.
Qed.

Lemma start_active now read send m :
  isActive m = true -> start now read send m = (Returned tt, m, []).
Proof. intros Ha. unfold start. monad_unfold. rewrite Ha. reflexivity. Qed.

(** The monitor as [start()] leaves it for its immediate check. *)
Lemma start_inactive now read send m :
  isActive m = false ->
  let ma := set_interval true (set_startTime (Some now) (set_isActive true m)) in
  start now read send m =
  match checkOutputBegin now ma with
  | (Returned reading, m1, t1) =>
      match (if reading
             then catch (checkOutputResume now read send) (fun _ => mret tt)
             else mret tt) m1 with
      | (r, m2, t2) => (r, m2, SetInterval (pollInterval m) :: t1 ++ Emit started :: t2)
      end
  | (Threw e, m1, t1) => (Threw e, m1, SetInterval (pollInterval m) :: t1)
  end.
Proof.
  intros Ha ma. unfold start. monad_unfold. rewrite Ha. cbn [fst snd].
  fold ma. destruct (checkOutputBegin now ma) as [[[reading|e] m1] t1]; [|reflexivity].
  destruct reading.
  - destruct (checkOutputResume now read send m1) as [[[[]|e] m2] t2];
      cbn; rewrite ?app_nil_r; reflexivity.
  - cbn. reflexivity.
Qed.

Lemma start_summary now read send m r m' t :
  isActive m = false ->
  start now read send m = (r, m', t) ->
  r = Returned tt
  /\ extendsByNew (executedChains m) (executedChains m')
  /\ pollReport m' t.
Proof.
  intros Ha. rewrite (start_inactive now read send m Ha). cbv zeta.
  set (ma := set_interval true (set_startTime (Some now) (set_isActive true m))).
  assert (isActive ma = true) as Haa by reflexivity.
  rewrite (checkOutputBegin_active now ma Haa). cbv zeta.
  destruct (now - default 0 (startTime ma) >? timeout ma).
  - unfold mret, M_ret. intros [= <- <- <-]. split; [reflexivity|].
    rewrite executedChains_stopped_state. split; [left; reflexivity|].
    right. split; [apply isActive_stopped_state|].
    match goal with
    | |- outcomeReported (lifecycle (SetInterval _ :: ?l)) =>
        change (outcomeReported (lifecycle l))
    end.
    exact (outcomeReported_timeout _ _).
  - unfold catch.
    destruct (checkOutputResume now read send (set_pollCount (S (pollCount ma)) ma))
      as [[r2 m2] t2] eqn:E.
    apply checkOutputResume_summary in E as [Hn Hr]; [|exact Haa].
    destruct r2 as [[]|err]; unfold mret, M_ret; intros [= <- <- <-];
      (split; [reflexivity|]); (split; [exact Hn|]); rewrite ?app_nil_r; exact Hr.
Qed.


(** Every action returns, and changes [executedChains] by one new record at
    most. *)
Lemma perform_summary a m r m' t :
  perform a m = (r, m', t) ->
  r = Returned tt /\ extendsByNew (executedChains m) (executedChains m').
Proof.
  destruct (isActive m) eqn:Ha; destruct a as [now read send|now read send|]; cbn [perform].
  - rewrite (start_active _ _ _ _ Ha). intros [= <- <- <-]. split; [reflexivity|left; reflexivity].
  - intros E. apply tick_summary in E as (? & ? & ?); auto.
  - rewrite (stop_active _ Ha). intros [= <- <- <-]. split; [reflexivity|].
    left. apply executedChains_stopped_state.
  - intros E. apply start_summary in E as (? & ? & ?); auto.
  - rewrite (tick_inactive _ _ _ _ Ha). intros [= <- <- <-]. split; [reflexivity|left; reflexivity].
  - rewrite (stop_inactive _ Ha). intros [= <- <- <-]. split; [reflexivity|left; reflexivity].
Qed.



Lemma sameSetup_refl m : sameSetup m m.
Proof. repeat split. Qed.

Lemma sameSetup_afterStop m : sameSetup m (afterStop m).
Proof.
  unfold afterStop, stopped_state.
  destruct (isActive m); [|apply sameSetup_refl]. destruct (interval m); repeat split.
Qed.

Lemma sameSetup_trans m1 m2 m3 : sameSetup m1 m2 -> sameSetup m2 m3 -> sameSetup m1 m3.
Proof. unfold sameSetup. intros (-> & -> & ->) (-> & -> & ->). auto. Qed.

Lemma executeChainAction_frame now send e m r m' t :
  executeChainAction now send e m = (r, m', t) -> sameSetup m m'.
Proof.
  intros E.
  destruct (executeChainAction_spec now send e m) as [[_ E']|(_ & b & ts & _ & _ & E')];
    rewrite E' in E; injection E as <- <- <-; [apply sameSetup_refl|].
  destruct b; [destruct (truthy (nextKeyword (entryChain e)))|];
    try (eapply sameSetup_trans; [|apply sameSetup_afterStop]); repeat split.
Qed.

Lemma checkEntries_frame now send entries m r m' t :
  checkEntries now send entries m = (r, m', t) -> sameSetup m m'.
Proof.
  intros E. apply checkEntries_spec in E as [[-> ->]|(k & e & _ & _ & E)];
    [apply sameSetup_refl|].
  apply executeChainAction_frame in E.
  eapply sameSetup_trans; [|exact E]. repeat split.
Qed.

Lemma checkOutputResume_frame now read send m r m' t :
  checkOutputResume now read send m = (r, m', t) -> sameSetup m m'.
Proof.
  unfold checkOutputResume. destruct read as [output|err|err].
  - unfold checkForKeywords. monad_unfold. cbn [fst snd].
    match goal with
    | |- context [checkEntries now send ?es ?m2] =>
        destruct (checkEntries now send es m2) as [[r2 m2'] t2] eqn:E
    end.
    apply checkEntries_frame in E. intros [= <- <- <-].
    eapply sameSetup_trans; [|exact E]. repeat split.
  - monad_unfold. intros [= <- <- <-]. apply sameSetup_refl.
  - monad_unfold. intros [= <- <- <-]. apply sameSetup_refl.
Qed.

(** The shape of the result of [start()] on a monitor that is not active. *)
Lemma start_shape now read send m :
  isActive m = false ->
  exists m' t, start now read send m = (Returned tt, m', t)
               /\ keywordMap m' = keywordMap m.
Proof.
  intros Ha. rewrite (start_inactive now read send m Ha). cbv zeta.
  fold (activated now m).
  assert (isActive (activated now m) = true) as Haa by reflexivity.
  rewrite (checkOutputBegin_active now (activated now m) Haa). cbv zeta.
  destruct (now - default 0 (startTime (activated now m)) >? timeout (activated now m)).
  - unfold mret, M_ret. eexists _, _. split; [reflexivity|]. reflexivity.
  - unfold catch.
    destruct (checkOutputResume now read send
                (set_pollCount (S (pollCount (activated now m))) (activated now m)))
      as [[r2 m2] t2] eqn:E2.
    apply checkOutputResume_frame in E2 as (Hk & _).
    destruct r2 as [[]|err]; unfold mret, M_ret;
      (eexists _, _; split; [reflexivity|exact Hk]).
Qed.

Lemma keywordMap_stopped_state m : keywordMap (stopped_state m) = keywordMap m.
Proof. unfold stopped_state. destruct (interval m); reflexivity. Qed.

Lemma checkOutput_keywordMap now read send m :
  keywordMap (stateOf (checkOutput now read send m)) = keywordMap m.
Proof.
  unfold checkOutput, stateOf. unfold mbind, M_bind.
  destruct (isActive m) eqn:Ha.
  - rewrite (checkOutputBegin_active now m Ha). cbv zeta.
    destruct (now - default 0 (startTime m) >? timeout m).
    + unfold mret, M_ret. cbn [fst snd]. rewrite keywordMap_stopped_state. reflexivity.
    + destruct (checkOutputResume now read send (set_pollCount (S (pollCount m)) m))
        as [[r2 m2] t2] eqn:E.
      apply checkOutputResume_frame in E as (Hk & _). exact Hk.
  - rewrite (checkOutputBegin_inactive now m Ha). reflexivity.
Qed.

Lemma perform_keywordMap a m : keywordMap (stateOf (perform a m)) = keywordMap m.
Proof.
  destruct a as [now read send|now read send|]; cbn [perform].
  - destruct (isActive m) eqn:Ha.
    + rewrite (start_active _ _ _ _ Ha). reflexivity.
    + destruct (start_shape now read send m Ha) as (m' & t & -> & Hk). exact Hk.
  - unfold tick. unfold mbind, M_bind, get, catch. destruct (interval m); [|reflexivity].
    pose proof (checkOutput_keywordMap now read send m) as H. unfold stateOf in *.
    destruct (checkOutput now read send m) as [[[[]|err] m1] t1]; exact H.
  - rewrite stop_eq. unfold stateOf, afterStop. cbn [fst snd].
    destruct (isActive m); [apply keywordMap_stopped_state|reflexivity].
Qed.

(** ** [start()] *)

(** C8, amended.  [start()] on an active monitor returns without an error
    and without any effect.  On a monitor that is not active it returns
    after it installed the timer with [pollInterval], recorded the start
    time, run one check of the output and emitted [started]; afterwards the
    monitor is active, unless that check already ended the run and reported
    how. *)
Theorem C8_start (now : Z) (read : ReadResult) (send : Z -> SendResult) (m : Monitor) :
  (isActive m = true -> start now read send m = (Returned tt, m, []))
  /\ (isActive m = false ->
      exists m' t,
        start now read send m = (Returned tt, m', SetInterval (pollInterval m) :: t)
        /\ startTime m' = Some now
        /\ pollCount m' = S (pollCount m)
        /\ In (Emit started) t
        /\ pollReport m' t).
Proof.
  split; [apply start_active|]. intros Ha.
  destruct (start now read send m) as [[r m'] t0] eqn:E.
  pose proof (start_summary _ _ _ _ _ _ _ Ha E) as (-> & _ & Hrep).
  rewrite (start_inactive now read send m Ha) in E. cbv zeta in E.
  fold (activated now m) in E.
  assert (isActive (activated now m) = true) as Haa by reflexivity.
  rewrite (checkOutputBegin_active now (activated now m) Haa) in E. cbv zeta in E.
  destruct (now - default 0 (startTime (activated now m)) >? timeout (activated now m)).
  - unfold mret, M_ret in E. injection E as <- <-.
    eexists _, _. split; [reflexivity|].
    split; [reflexivity|]. split; [reflexivity|].
    split; [|exact Hrep]. cbn. tauto.
  - unfold catch in E.
    destruct (checkOutputResume now read send
                (set_pollCount (S (pollCount (activated now m))) (activated now m)))
      as [[r2 m2] t2] eqn:E2.
    apply checkOutputResume_frame in E2 as (_ & Hs & Hp).
    destruct r2 as [[]|err]; unfold mret, M_ret in E; injection E as <- <-;
      (eexists _, _; split; [reflexivity|]);
      (split; [exact Hs|]); (split; [exact Hp|]);
      (split; [|exact Hrep]); right; left; reflexivity.
Qed.

Lemma C8_start_witness :
  exists m0, constructor threeStages = inr m0 /\
  exists m' t,
    start 0 (ReadOk []) alwaysOk m0 = (Returned tt, m', SetInterval (pollInterval m0) :: t)
    /\ startTime m' = Some 0
    /\ pollCount m' = S (pollCount m0)
    /\ In (Emit started) t
    /\ pollReport m' t.
Proof.
  eexists. split; [reflexivity|].
  apply (proj2 (C8_start 0 (ReadOk []) alwaysOk _)). reflexivity.
Defined.

(** C8 as stated fails: [start()] on a monitor that is active returns, with
    no error. *)
Lemma C8_counterexample :
  exists m0, constructor threeStages = inr m0 /\
  let m1 := fst (run [DoStart 0 (ReadOk []) alwaysOk] m0) in
  isActive m1 = true
  /\ outcomeOf (start 5000 (ReadOk []) alwaysOk m1) = Returned tt
  /\ traceOf (start 5000 (ReadOk []) alwaysOk m1) = [].
Proof.
  eexists. split; [reflexivity|]. cbv zeta.
  match goal with
  | |- isActive ?m1 = true /\ _ =>
      assert (isActive m1 = true) as Ha by (vm_compute; reflexivity)
  end.
  split; [exact Ha|]. rewrite (start_active _ _ _ _ Ha). split; reflexivity.
Qed.

(** ** Failed reads *)

Lemma checkOutputResume_failure now read send m err :
  readFailure read = Some err ->
  checkOutputResume now read send m = (Threw err, m, []).
Proof.
  destruct read as [output|e|e]; cbn [readFailure]; [discriminate|..];
    intros [= <-]; reflexivity.
Qed.

(** On a firing of the timer, a failed read becomes an [error] event; the
    monitor stays active with its timer, nothing is sent, and only the poll
    counter has changed. *)
Lemma tick_read_failure now read send m err :
  isActive m = true ->
  interval m = true ->
  now - default 0 (startTime m) <= timeout m ->
  readFailure read = Some err ->
  tick now read send m =
  (Returned tt, set_pollCount (S (pollCount m)) m,
   [ReadFromInstance (instanceId m) 200; Emit (error err)]).
Proof.
  intros Ha Hi Ht Hr. unfold tick, checkOutput.
  unfold mbind at 1, M_bind at 1, get. rewrite Hi. unfold catch.
  unfold mbind, M_bind. rewrite (checkOutputBegin_active now m Ha). cbv zeta.
  destruct (Z.gtb_spec (now - default 0 (startTime m)) (timeout m)); [lia|].
  rewrite (checkOutputResume_failure now read send
             (set_pollCount (S (pollCount m)) m) err Hr).
  reflexivity.
Qed.

(** C6, the divergence.  When the read of the immediate check of [start()]
    fails, no [error] event is emitted: the events are [started] alone.  The
    monitor is active, its timer installed, and nothing was sent. *)
Theorem C6_immediate_check_hides_read_failure (now : Z) (read : ReadResult)
    (send : Z -> SendResult) (m : Monitor) (err : jsstring) :
  isActive m = false ->
  0 <= timeout m ->
  readFailure read = Some err ->
  start now read send m =
  (Returned tt, set_pollCount (S (pollCount m)) (activated now m),
   [SetInterval (pollInterval m); ReadFromInstance (instanceId m) 200; Emit started]).
Proof.
  intros Ha Ht Hr. rewrite (start_inactive now read send m Ha). cbv zeta.
  fold (activated now m).
  assert (isActive (activated now m) = true) as Haa by reflexivity.
  rewrite (checkOutputBegin_active now (activated now m) Haa). cbv zeta.
  change (startTime (activated now m)) with (Some now).
  change (timeout (activated now m)) with (timeout m).
  cbn [default]. unfold id.
  destruct (Z.gtb_spec (now - now) (timeout m)); [lia|].
  unfold catch.
  rewrite (checkOutputResume_failure now read send
             (set_pollCount (S (pollCount (activated now m))) (activated now m)) err Hr).
  reflexivity.
Qed.

Lemma C6_immediate_check_hides_read_failure_witness :
  exists m0, constructor threeStages = inr m0 /\
  events (traceOf (start 0 (ReadFailed (js "Session test does not exist")) alwaysOk m0))
  = [started].
Proof.
  eexists. split; [reflexivity|].
  rewrite (C6_immediate_check_hides_read_failure 0 _ alwaysOk _
             (js "Session test does not exist")); [reflexivity|reflexivity|..].
  - vm_compute. discriminate.
  - reflexivity.
Defined.

(** ** The offset check *)

Lemma lastIndexOfFrom_range p s : forall i,
  0 <= i -> lastIndexOfFrom i s p = -1 \/ i <= lastIndexOfFrom i s p.
Proof.
  induction s as [|c s IH]; intros i Hi; cbn [lastIndexOfFrom].
  - destruct (startsWith [] p); [right; lia|left; reflexivity].
  - destruct (IH (i + 1) ltac:(lia)) as [->|H].
    + cbn. destruct (startsWith (c :: s) p); [right; lia|left; reflexivity].
    + destruct (Z.eqb_spec (lastIndexOfFrom (i + 1) s p) (-1)); [lia|]. right. lia.
Qed.

(** The last occurrence is at or after every occurrence. *)
Lemma lastIndexOfFrom_ge p s : forall i n,
  0 <= i -> (n <= length s)%nat -> startsWith (drop n s) p = true ->
  i + Z.of_nat n <= lastIndexOfFrom i s p.
Proof.
  induction s as [|c s IH]; intros i n Hi Hn Hs.
  - simpl in Hn. assert (n = O) as -> by lia. cbn [lastIndexOfFrom].
    rewrite drop_0 in Hs. rewrite Hs. lia.
  - cbn [lastIndexOfFrom]. destruct n as [|n].
    + rewrite drop_0 in Hs. rewrite Hs.
      destruct (lastIndexOfFrom_range p s (i + 1) ltac:(lia)) as [->|H]; [cbn; lia|].
      destruct (Z.eqb_spec (lastIndexOfFrom (i + 1) s p) (-1)); lia.
    + cbn [drop] in Hs. simpl in Hn.
      pose proof (IH (i + 1) n ltac:(lia) ltac:(lia) Hs) as H.
      destruct (Z.eqb_spec (lastIndexOfFrom (i + 1) s p) (-1)); lia.
Qed.

Lemma lastIndexOf_ge buffer K o : occursAt buffer K o -> o <= lastIndexOf buffer K.
Proof.
  intros [Ho Hs]. unfold lastIndexOf.
  pose proof (lastIndexOfFrom_ge K buffer 0 (Z.to_nat o) ltac:(lia) ltac:(lia) Hs). lia.
Qed.





(** A recorded offset 0 reads as no record ([0 || -1]): the keyword at the
    start of the buffer is detected again on the next check; the guard of
    [executeChainAction] then keeps its stage from a second execution. *)
Remark recorded_offset_zero_detected_again :
  exists m0, constructor threeStages = inr m0 /\
  let K := js "IMPLEMENTED" in
  let m1 := fst (run [DoStart 0 (ReadOk K) alwaysOk] m0) in
  lastDetectedPosition m1 !! Some K = Some 0
  /\ lastIndexOf (outputBuffer m1) K = 0
  /\ outcomeOf (detectKeywordInOutput (Some K) m1) = Returned true
  /\ executedChains (stateOf (checkForKeywords 5000 alwaysOk m1)) = executedChains m1.
Proof.
  eexists. split; [reflexivity|]. vm_compute. repeat split.
Qed.



(** ** Runs *)

Lemma run_cons a rest m :
  run (a :: rest) m =
  (fst (run rest (stateOf (perform a m))),
   traceOf (perform a m) ++ snd (run rest (stateOf (perform a m)))).
Proof.
  cbn [run]. unfold stateOf, traceOf.
  destruct (perform a m) as [[r m1] t1]. cbn [fst snd].
  destruct (run rest m1). reflexivity.
Qed.



Lemma isExecuted_stageKey k idx old :
  existsb (isExecuted k idx) old = false -> ~ In (k, idx) (map stageKey old).
Proof.
  induction old as [|e old IH]; cbn [existsb map In]; [tauto|].
  intros [H1 H2]%orb_false_iff [H|H]; [|exact (IH H2 H)].
  unfold stageKey in H. injection H as Hk Hi.
  unfold isExecuted in H1. rewrite Hk, Hi in H1.
  rewrite !bool_decide_eq_true_2 in H1 by reflexivity. discriminate.
Qed.

Lemma extendsByNew_NoDup old new :
  List.NoDup (map stageKey old) -> extendsByNew old new -> List.NoDup (map stageKey new).
Proof.
  intros Hnd [->|(e & -> & He)]; [exact Hnd|].
  rewrite map_app. cbn [map].
  apply isExecuted_stageKey in He.
  apply NoDup_ListNoDup. apply NoDup_ListNoDup in Hnd.
  apply NoDup_app. split; [exact Hnd|]. split.
  - intros x Hx Hin. apply list_elem_of_In in Hin as [Hin|[]]. subst x.
    apply He. apply list_elem_of_In. exact Hx.
  - apply NoDup_singleton.
Qed.

Lemma run_NoDup actions : forall m,
  List.NoDup (map stageKey (executedChains m)) ->
  List.NoDup (map stageKey (executedChains (fst (run actions m)))).
Proof.
  induction actions as [|a rest IH]; intros m Hnd; [exact Hnd|].
  rewrite run_cons. cbn [fst]. apply IH.
  destruct (perform a m) as [[r m1] t1] eqn:E. unfold stateOf. cbn [fst snd].
  apply perform_summary in E as [_ Hn].
  exact (extendsByNew_NoDup _ _ Hnd Hn).
Qed.

Lemma constructor_fresh config m0 :
  constructor config = inr m0 ->
  executedChains m0 = [] /\ isActive m0 = false /\ interval m0 = false.
Proof.
  unfold constructor.
  destruct (negb (truthy (cfgInstanceId config))); [discriminate|].
  destruct (cfgChains config); try discriminate.
  intros [= <-]. auto.
Qed.







(** In every run from a new monitor the keys of the keyword map are the
    keywords of its entries. *)
Lemma run_keywordMapOk config m0 actions :
  constructor config = inr m0 -> keywordMapOk (fst (run actions m0)).
Proof.
  intros Hc. apply constructor_keywordMapOk in Hc.
  revert m0 Hc. induction actions as [|a rest IH]; intros m0 Hc; [exact Hc|].
  rewrite run_cons. cbn [fst]. apply IH.
  unfold keywordMapOk in *. rewrite perform_keywordMap. exact Hc.
Qed.

(** * Further properties of the monitor *)

(** ** How a property of the state passes through the methods *)

Section Lifting.

(** A relation between the monitor before and after, kept by each of the
    assignments the methods make. *)
Variable R : Monitor -> Monitor -> Prop.

(** What is known of the outputs that are read. *)
Variable P : jsstring -> Prop.

Hypothesis R_refl : forall m, R m m.
Hypothesis R_trans : forall m1 m2 m3, R m1 m2 -> R m2 m3 -> R m1 m3.
Hypothesis R_pollCount : forall m n, R m (set_pollCount n m).
Hypothesis R_activated : forall now m, isActive m = false -> R m (activated now m).
Hypothesis R_stopped : forall m, isActive m = true -> R m (stopped_state m).
Hypothesis R_buffer : forall m output,
  P output ->
  R m (set_outputBuffer
         (sliceLast bufferWindow (outputBuffer m) ++ unwrapBridgeOutput output) m).
Hypothesis R_detected : forall m k, R m (detectedAt k m).
Hypothesis R_executed : forall m k e now,
  In (k, e) (keywordMap m) -> alreadyExecuted e m = false ->
  R m (set_executedChains (executedChains m ++ [executionOf now e]) m).
Hypothesis R_advanced : forall m i k,
  R m (set_currentChainIndex i (set_currentKeyword k m)).

Lemma lift_afterStop m : R m (afterStop m).
Proof.
  unfold afterStop. destruct (isActive m) eqn:Ha; [apply R_stopped, Ha|apply R_refl].
Qed.

Lemma lift_executeChainAction now send k e m r m' t :
  In (k, e) (keywordMap m) ->
  executeChainAction now send e m = (r, m', t) -> R m m'.
Proof.
  intros Hin E.
  destruct (executeChainAction_spec now send e m) as [[_ E']|(Hd & b & ts & _ & _ & E')];
    rewrite E' in E; injection E as <- <- <-; [apply R_refl|].
  eapply R_trans; [exact (R_executed m k e now Hin Hd)|].
  destruct b; [destruct (truthy (nextKeyword (entryChain e)))|].
  - apply R_advanced.
  - apply lift_afterStop.
  - apply lift_afterStop.
Qed.

Lemma lift_checkEntries now send m r m' t :
  checkEntries now send (keywordMap m) m = (r, m', t) -> R m m'.
Proof.
  intros E. apply checkEntries_spec in E as [[-> ->]|(k & e & Hin & _ & E)];
    [apply R_refl|].
  eapply R_trans; [apply (R_detected m k)|].
  exact (lift_executeChainAction now send k e (detectedAt k m) r m' t Hin E).
Qed.

Lemma lift_checkOutputResume now read send m r m' t :
  (forall output, read = ReadOk output -> P output) ->
  checkOutputResume now read send m = (r, m', t) -> R m m'.
Proof.
  intros HP. unfold checkOutputResume. destruct read as [output|err|err].
  - unfold checkForKeywords. monad_unfold. cbn [fst snd].
    match goal with
    | |- context [checkEntries now send ?es ?m2] =>
        destruct (checkEntries now send es m2) as [[r2 m2'] t2] eqn:E
    end.
    intros [= <- <- <-].
    eapply R_trans; [apply R_buffer, HP; reflexivity|].
    exact (lift_checkEntries _ _ _ _ _ _ E).
  - monad_unfold. intros [= <- <- <-]. apply R_refl.
  - monad_unfold. intros [= <- <- <-]. apply R_refl.
Qed.

Lemma lift_checkOutput now read send m :
  (forall output, read = ReadOk output -> P output) ->
  R m (stateOf (checkOutput now read send m)).
Proof.
  intros HP. unfold checkOutput, stateOf. unfold mbind, M_bind.
  destruct (isActive m) eqn:Ha.
  - rewrite (checkOutputBegin_active now m Ha). cbv zeta.
    destruct (now - default 0 (startTime m) >? timeout m).
    + unfold mret, M_ret. cbn [fst snd].
      eapply R_trans; [apply R_pollCount|]. apply R_stopped. exact Ha.
    + destruct (checkOutputResume now read send (set_pollCount (S (pollCount m)) m))
        as [[r2 m2] t2] eqn:E. cbn [fst snd].
      eapply R_trans; [apply R_pollCount|].
      exact (lift_checkOutputResume _ _ _ _ _ _ _ HP E).
  - rewrite (checkOutputBegin_inactive now m Ha). apply R_refl.
Qed.

Lemma lift_start now read send m :
  (forall output, read = ReadOk output -> P output) ->
  R m (stateOf (start now read send m)).
Proof.
  intros HP. destruct (isActive m) eqn:Ha.
  - rewrite (start_active _ _ _ _ Ha). apply R_refl.
  - rewrite (start_inactive now read send m Ha). cbv zeta. fold (activated now m).
    assert (isActive (activated now m) = true) as Haa by reflexivity.
    rewrite (checkOutputBegin_active now (activated now m) Haa). cbv zeta.
    eapply R_trans; [exact (R_activated now m Ha)|].
    destruct (now - default 0 (startTime (activated now m)) >? timeout (activated now m)).
    + unfold mret, M_ret, stateOf. cbn [fst snd].
      eapply R_trans; [apply R_pollCount|]. apply R_stopped. reflexivity.
    + unfold catch.
      destruct (checkOutputResume now read send
                  (set_pollCount (S (pollCount (activated now m))) (activated now m)))
        as [[r2 m2] t2] eqn:E2.
      apply (lift_checkOutputResume _ _ _ _ _ _ _ HP) in E2.
      destruct r2 as [[]|err]; unfold mret, M_ret, stateOf; cbn [fst snd];
        (eapply R_trans; [apply R_pollCount|exact E2]).
Qed.

Lemma lift_perform a m :
  (forall output, actionOutput a = Some output -> P output) ->
  R m (stateOf (perform a m)).
Proof.
  intros HP. destruct a as [now read send|now read send|]; cbn [perform].
  - apply lift_start. intros output ->. apply HP. reflexivity.
  - unfold tick. unfold mbind, M_bind, get, catch. destruct (interval m); [|apply R_refl].
    assert (forall output, read = ReadOk output -> P output) as HP'
      by (intros output ->; apply HP; reflexivity).
    pose proof (lift_checkOutput now read send m HP') as H. unfold stateOf in *.
    destruct (checkOutput now read send m) as [[[[]|err] m1] t1]; exact H.
  - rewrite stop_eq. apply lift_afterStop.
Qed.

Lemma lift_run actions : forall m,
  Forall (fun a => forall output, actionOutput a = Some output -> P output) actions ->
  R m (fst (run actions m)).
Proof.
  induction actions as [|a rest IH]; intros m HP; [apply R_refl|].
  inversion HP as [|? ? Ha Hrest]; subst.
  rewrite run_cons. cbn [fst].
  eapply R_trans; [apply lift_perform, Ha|apply IH, Hrest].
Qed.

End Lifting.

Lemma any_output actions :
  Forall (fun a => forall output : jsstring, actionOutput a = Some output -> True) actions.
Proof. apply Forall_forall. auto. Qed.

(** ** Timer, activity and progress *)

(** X1.  In every run from a new monitor a timer is installed exactly while
    the monitor is active: [start()] installs it, every way of ending
    ([stop()], timeout, failure, completion) clears it. *)
Theorem timer_installed_iff_active (config : Config) (m0 : Monitor)
    (actions : list Action) :
  constructor config = inr m0 ->
  interval (fst (run actions m0)) = isActive (fst (run actions m0)).
Proof.
  intros Hc. apply constructor_fresh in Hc as (_ & Ha & Hi).
  refine (lift_run (fun m m' => interval m = isActive m -> interval m' = isActive m')
            (fun _ => True) _ _ _ _ _ _ _ _ _ actions m0 (any_output actions) _).
  - auto.
  - intros m1 m2 m3 H12 H23 H. auto.
  - intros m n H. exact H.
  - intros now m _ _. reflexivity.
  - intros m _ _. unfold stopped_state. destruct (interval m) eqn:E; cbn; auto.
  - intros m b _ H. exact H.
  - intros m k H. exact H.
  - intros m k e now _ _ H. exact H.
  - intros m i k H. exact H.
  - congruence.
Qed.

Lemma timer_installed_iff_active_witness :
  exists m0, constructor threeStages = inr m0 /\
  interval (fst (run [DoStart 0 (ReadOk []) alwaysOk; DoStop] m0))
  = isActive (fst (run [DoStart 0 (ReadOk []) alwaysOk; DoStop] m0)).
Proof.
  eexists. split; [reflexivity|].
  apply (timer_installed_iff_active threeStages). reflexivity.
Defined.



Lemma mapSet_length k v m : (length (mapSet k v m) <= S (length m))%nat.
Proof.
  induction m as [|[k' v'] m IH]; cbn [mapSet length]; [lia|].
  destruct (bool_decide (k' = k)); cbn [length]; lia.
Qed.

Lemma buildKeywordMap_length cs : forall i m,
  (length (buildKeywordMap cs i m) <= length cs + length m)%nat.
Proof.
  induction cs as [|c cs IH]; intros i m; cbn [buildKeywordMap length]; [lia|].
  pose proof (IH (S i) (mapSet (keyword c) (mkEntry c i) m)).
  pose proof (mapSet_length (keyword c) (mkEntry c i) m). lia.
Qed.

Lemma constructor_keywordMap_length config m0 :
  constructor config = inr m0 -> (length (keywordMap m0) <= length (chains m0))%nat.
Proof.
  unfold constructor.
  destruct (negb (truthy (cfgInstanceId config))); [discriminate|].
  destruct (cfgChains config) as [| |cs]; try discriminate.
  intros [= <-]. cbn [keywordMap chains].
  pose proof (buildKeywordMap_length cs 0 []). simpl in *. lia.
Qed.

(** What a run keeps: the chain, the keyword map, and that the executions on
    record are those of entries of the map. *)
Lemma run_executedFromMap actions m :
  keywordMap (fst (run actions m)) = keywordMap m
  /\ chains (fst (run actions m)) = chains m
  /\ (executedFromMap m -> executedFromMap (fst (run actions m))).
Proof.
  refine (lift_run (fun m m' => keywordMap m' = keywordMap m /\ chains m' = chains m
                                /\ (executedFromMap m -> executedFromMap m'))
            (fun _ => True) _ _ _ _ _ _ _ _ _ actions m (any_output actions)).
  - auto.
  - intros m1 m2 m3 (K12 & C12 & H12) (K23 & C23 & H23).
    split; [congruence|]. split; [congruence|]. auto.
  - intros m1 n. unfold executedFromMap. cbn. auto.
  - intros now m1 _. unfold executedFromMap. cbn. auto.
  - intros m1 _. unfold stopped_state, executedFromMap.
    destruct (interval m1); cbn; auto.
  - intros m1 b _. unfold executedFromMap. cbn. auto.
  - intros m1 k. unfold executedFromMap. cbn. auto.
  - intros m1 k e now Hin _. split; [reflexivity|]. split; [reflexivity|].
    unfold executedFromMap. cbn [executedChains keywordMap set_executedChains].
    intros H. rewrite map_app. apply incl_app; [exact H|].
    intros x [<-|[]]. change (stageKey (executionOf now e)) with (entryKey (k, e)).
    apply in_map. exact Hin.
  - intros m1 i k. unfold executedFromMap. cbn. auto.
Qed.

(** X3.  In every run from a new monitor the number of executed stages that
    [getStatus()] reports never exceeds the number of stages of the chain. *)
Theorem status_executed_at_most_total (config : Config) (m0 : Monitor)
    (actions : list Action) (now : Z) :
  constructor config = inr m0 ->
  (stExecutedChains (getStatus now (fst (run actions m0)))
   <= stTotalChains (getStatus now (fst (run actions m0))))%nat.
Proof.
  intros Hc. cbn [getStatus stExecutedChains stTotalChains].
  destruct (run_executedFromMap actions m0) as (Hk & Hch & Hex).
  pose proof (constructor_keywordMap_length _ _ Hc) as Hlen.
  pose proof (constructor_fresh _ _ Hc) as (He & _).
  assert (executedFromMap m0) as H0.
  { unfold executedFromMap. rewrite He. intros x []. }
  specialize (Hex H0). unfold executedFromMap in Hex.
  assert (List.NoDup (map stageKey (executedChains (fst (run actions m0))))) as Hnd.
  { apply run_NoDup. rewrite He. constructor. }
  pose proof (List.NoDup_incl_length Hnd Hex) as Hle.
  rewrite !length_map, Hk in Hle. rewrite Hch. lia.
Qed.

Lemma status_executed_at_most_total_witness :
  exists m0, constructor threeStages = inr m0 /\
  (stExecutedChains (getStatus 9000 (fst (run
      [DoStart 0 (ReadOk (js "IMPLEMENTED")) alwaysOk] m0)))
   <= stTotalChains (getStatus 9000 (fst (run
      [DoStart 0 (ReadOk (js "IMPLEMENTED")) alwaysOk] m0))))%nat.
Proof.
  eexists. split; [reflexivity|].
  apply (status_executed_at_most_total threeStages). reflexivity.
Defined.

(** ** The output buffer *)

Lemma replaceAll2_length a b c : forall n s,
  (length s <= n)%nat -> (length (replaceAll2 a b [c] s) <= length s)%nat.
Proof.
  induction n as [|n IH]; intros s Hn.
  - destruct s; [simpl; lia|simpl in Hn; lia].
  - destruct s as [|x [|y s]]; cbn [replaceAll2]; [simpl; lia..|].
    simpl in Hn.
    destruct ((x =? a)%N && (y =? b)%N).
    + pose proof (IH s ltac:(lia)). simpl. lia.
    + pose proof (IH (y :: s) ltac:(simpl; lia)). simpl in *. lia.
Qed.

Lemma bridgeMatch_length s : forall payload,
  bridgeMatch s = Some payload -> (length payload <= length s)%nat.
Proof.
  induction s as [|c s IH]; intros payload; cbn [bridgeMatch].
  - destruct (startsWith [] bridgePrefix); [|discriminate].
    destruct (endsWith _ bridgeSuffix && forallb _ _); [|discriminate].
    intros [= <-]. rewrite ?length_take, ?length_drop. simpl. lia.
  - destruct (startsWith (c :: s) bridgePrefix).
    + destruct (endsWith _ bridgeSuffix && forallb _ _).
      * intros [= <-]. rewrite length_take, length_drop. cbn [length]. lia.
      * intros H. apply IH in H. simpl. lia.
    + intros H. apply IH in H. simpl. lia.
Qed.

Lemma unwrapBridgeOutput_length s : (length (unwrapBridgeOutput s) <= length s)%nat.
Proof.
  unfold unwrapBridgeOutput. destruct (includes s bridgePrefix); [|lia].
  destruct (bridgeMatch s) as [payload|] eqn:E; [|lia].
  apply bridgeMatch_length in E.
  pose proof (replaceAll2_length 92%N 110%N 10%N _ payload (Nat.le_refl _)).
  pose proof (replaceAll2_length 92%N 34%N 34%N _
                (replaceAll2 92%N 110%N [10%N] payload) (Nat.le_refl _)).
  lia.
Qed.

Lemma sliceLast_length n s : (length (sliceLast n s) <= n)%nat.
Proof. unfold sliceLast. rewrite length_drop. lia. Qed.

(** X4.  The buffer stays bounded: in a run from a new monitor in which no
    read returns more than [N] code units, the buffer never holds more than
    the window of 10000 code units and [N] more. *)
Theorem buffer_stays_bounded (config : Config) (m0 : Monitor)
    (actions : list Action) (N : nat) :
  constructor config = inr m0 ->
  Forall (fun a => forall output, actionOutput a = Some output ->
                                  (length output <= N)%nat) actions ->
  (length (outputBuffer (fst (run actions m0))) <= bufferWindow + N)%nat.
Proof.
  intros Hc Hout.
  assert (outputBuffer m0 = []) as H0.
  { unfold constructor in Hc.
    destruct (negb (truthy (cfgInstanceId config))); [discriminate|].
    destruct (cfgChains config); try discriminate. injection Hc as <-. reflexivity. }
  refine (lift_run (fun m m' => (length (outputBuffer m) <= bufferWindow + N)%nat ->
                                (length (outputBuffer m') <= bufferWindow + N)%nat)
            (fun output => (length output <= N)%nat)
            _ _ _ _ _ _ _ _ _ actions m0 Hout _).
  - auto.
  - intros m1 m2 m3 H12 H23 H. auto.
  - intros m n H. exact H.
  - intros now m _ H. exact H.
  - intros m _ H. unfold stopped_state. destruct (interval m); exact H.
  - intros m output Hle _. cbn [outputBuffer set_outputBuffer].
    rewrite length_app.
    pose proof (sliceLast_length bufferWindow (outputBuffer m)).
    pose proof (unwrapBridgeOutput_length output). lia.
  - intros m k H. exact H.
  - intros m k e now _ _ H. exact H.
  - intros m i k H. exact H.
  - rewrite H0. cbn [length]. apply Nat.le_0_l.
Qed.

Lemma buffer_stays_bounded_witness :
  exists m0, constructor threeStages = inr m0 /\
  (length (outputBuffer (fst (run
     [DoStart 0 (ReadOk (js "IMPLEMENTED")) alwaysOk;
      DoTick 5000 (ReadOk (js "TESTED")) alwaysOk] m0))) <= bufferWindow + 11)%nat.
Proof.
  eexists. split; [reflexivity|].
  apply (buffer_stays_bounded threeStages); [reflexivity|].
  constructor; [intros output [= <-]; simpl; lia|].
  constructor; [intros output [= <-]; simpl; lia|]. constructor.
Defined.

(** ** Detection *)

Lemma scanLines_sound K lines : forall u m m' t,
  scanLines (Some K) lines u m = (Returned true, m', t) ->
  exists line, In line lines /\ signalLine K line.
Proof.
  induction lines as [|line rest IH]; intros u m m' t; cbn [scanLines].
  - monad_unfold. discriminate.
  - cbv zeta.
    assert (forall u', scanLines (Some K) rest u' m = (Returned true, m', t) ->
                       exists l, In l (line :: rest) /\ signalLine K l) as Hrest.
    { intros u' H. apply IH in H as (l & Hl & Hs). exists l. split; [right; exact Hl|exact Hs]. }
    set (hasKeyword := if endsWith K (js ":") then keywordSuffixTest K line
                       else includes line K).
    assert (hasKeyword = includes line K) as ->
      by (unfold hasKeyword, keywordSuffixTest; destruct (endsWith K (js ":")); reflexivity).
    destruct (includes line K) eqn:Hinc; [|apply Hrest].
    match goal with
    | |- context [isUserInput ?u2 line (trim line) K] =>
        destruct (isUserInput u2 line (trim line) K) eqn:Hu; [apply Hrest|]
    end.
    destruct (isActualCompletionSignal line K) eqn:Hsig; cbn [negb]; [|apply Hrest].
    intros _. exists line. split; [left; reflexivity|].
    split; [exact Hinc|]. split; [|exact Hsig].
    unfold isUserInput in Hu.
    destruct (startsWith (trim line) (js ">")); [|reflexivity].
    rewrite orb_true_r in Hu. discriminate.
Qed.

(** X5.  A keyword is detected only if some line of the buffer contains it,
    does not start with the prompt sign [>], and is accepted by the
    completion-signal detector: a keyword that is only mentioned is never
    detected. *)
Theorem detection_needs_a_signal_line (K : jsstring) (m : Monitor) :
  outcomeOf (detectKeywordInOutput (Some K) m) = Returned true ->
  exists line, In line (splitLines (outputBuffer m)) /\ signalLine K line.
Proof.
  unfold detectKeywordInOutput, outcomeOf. monad_unfold.
  destruct (negb (includes (outputBuffer m) (keywordText (Some K)))); [discriminate|].
  destruct (lastIndexOf (outputBuffer m) (keywordText (Some K)) <=? lastPositionOf (Some K) m);
    [discriminate|].
  destruct (scanLines (Some K) (splitLines (outputBuffer m)) false m) as [[r m1] t1] eqn:E.
  cbn [fst snd]. intros ->. exact (scanLines_sound _ _ _ _ _ _ E).
Qed.

Lemma detection_needs_a_signal_line_witness :
  exists m0, constructor threeStages = inr m0 /\
  exists line,
    In line (splitLines (outputBuffer (set_outputBuffer (js "IMPLEMENTED") m0)))
    /\ signalLine (js "IMPLEMENTED") line.
Proof.
  eexists. split; [reflexivity|].
  apply detection_needs_a_signal_line. vm_compute. reflexivity.
Defined.

Lemma scanLines_user_command K lines : forall m,
  noMarker lines ->
  scanLines (Some K) lines true m = (Returned false, m, []).
Proof.
  induction lines as [|line rest IH]; intros m Hn; cbn [scanLines]; [reflexivity|].
  inversion Hn as [|? ? Hl Hr]; subst. cbv zeta.
  assert ((if startsWith (trim line) (js ">") then true else true) = true) as ->
    by (destruct (startsWith (trim line) (js ">")); reflexivity).
  rewrite Hl. cbn [andb].
  destruct (if endsWith K (js ":") then keywordSuffixTest K line else includes line K);
    [|apply IH, Hr].
  unfold isUserInput. cbn [orb]. apply IH, Hr.
Qed.

(** X6.  What follows a user command is ignored until the status marker
    shows: when the first line of the buffer starts with the prompt sign [>]
    and no line contains the marker, no keyword is detected, whatever the
    lines say, and the monitor is left as it was. *)
Theorem user_command_hides_keywords (K : jsstring) (m : Monitor)
    (first : jsstring) (rest : list jsstring) :
  splitLines (outputBuffer m) = first :: rest ->
  startsWith (trim first) (js ">") = true ->
  noMarker (first :: rest) ->
  detectKeywordInOutput (Some K) m = (Returned false, m, []).
Proof.
  intros Hs Hf Hn. unfold detectKeywordInOutput. monad_unfold.
  destruct (negb (includes (outputBuffer m) (keywordText (Some K)))); [reflexivity|].
  destruct (lastIndexOf (outputBuffer m) (keywordText (Some K)) <=? lastPositionOf (Some K) m);
    [reflexivity|].
  rewrite Hs. cbn [scanLines]. cbv zeta. rewrite Hf.
  inversion Hn as [|? ? Hl Hr]; subst. rewrite Hl. cbn [andb].
  assert (isUserInput true first (trim first) K = true) as Hu by reflexivity.
  destruct (if endsWith K (js ":") then keywordSuffixTest K first else includes first K).
  - rewrite Hu. rewrite (scanLines_user_command K rest m Hr). reflexivity.
  - rewrite (scanLines_user_command K rest m Hr). reflexivity.
Qed.

Lemma user_command_hides_keywords_witness :
  exists m0, constructor threeStages = inr m0 /\
  let m := set_outputBuffer (js "> say TESTED" ++ [10%N] ++ js "TESTED") m0 in
  detectKeywordInOutput (Some (js "TESTED")) m = (Returned false, m, []).
Proof.
  eexists. split; [reflexivity|]. cbv zeta.
  apply (user_command_hides_keywords _ _ (js "> say TESTED") [js "TESTED"]).
  - vm_compute. reflexivity.
  - vm_compute. reflexivity.
  - repeat constructor.
Defined.

(** ** Dispatch failure, missing keywords, deadline *)





Lemma scanLines_returns K lines : forall u m,
  exists b m', scanLines (Some K) lines u m = (Returned b, m', []).
Proof.
  induction lines as [|line rest IH]; intros u m; cbn [scanLines].
  - monad_unfold. eauto.
  - cbv zeta.
    destruct (if endsWith K (js ":") then keywordSuffixTest K line else includes line K);
      [|apply IH].
    match goal with
    | |- context [isUserInput ?u2 line (trim line) K] =>
        destruct (isUserInput u2 line (trim line) K); [apply IH|]
    end.
    destruct (isActualCompletionSignal line K); cbn [negb]; [|apply IH].
    monad_unfold. cbn. eauto.
Qed.

Lemma detectKeywordInOutput_returns K m :
  exists b m', detectKeywordInOutput (Some K) m = (Returned b, m', []).
Proof.
  unfold detectKeywordInOutput. monad_unfold.
  destruct (negb (includes (outputBuffer m) (keywordText (Some K)))); [eauto|].
  destruct (lastIndexOf (outputBuffer m) (keywordText (Some K)) <=? lastPositionOf (Some K) m);
    [eauto|].
  destruct (scanLines_returns K (splitLines (outputBuffer m)) false m) as (b & m' & ->).
  eauto.
Qed.

Lemma executeChainAction_returns now send e m :
  outcomeOf (executeChainAction now send e m) = Returned tt.
Proof.
  destruct (executeChainAction_spec now send e m) as [[_ ->]|(_ & b & ts & _ & _ & ->)];
    reflexivity.
Qed.

Lemma checkEntries_returns now send entries : forall m,
  Forall (fun ke => fst ke <> None) entries ->
  outcomeOf (checkEntries now send entries m) = Returned tt.
Proof.
  induction entries as [|[k e] rest IH]; intros m Hk; cbn [checkEntries]; [reflexivity|].
  inversion Hk as [|? ? Hk1 Hkr]; subst. cbn [fst] in Hk1.
  destruct k as [K|]; [|congruence].
  unfold mbind, M_bind.
  destruct (detectKeywordInOutput_returns K m) as (b & m' & ->).
  destruct b.
  - pose proof (executeChainAction_returns now send e m') as H. unfold outcomeOf in *.
    destruct (executeChainAction now send e m') as [[r m2] t2]. exact H.
  - pose proof (IH m' Hkr) as H. unfold outcomeOf in *.
    destruct (checkEntries now send rest m') as [[r m2] t2]. exact H.
Qed.

Lemma buildKeywordMap_keys cs : forall i m,
  Forall (fun c => keyword c <> None) cs ->
  Forall (fun ke : option jsstring * ChainEntry => fst ke <> None) m ->
  Forall (fun ke : option jsstring * ChainEntry => fst ke <> None) (buildKeywordMap cs i m).
Proof.
  induction cs as [|c cs IH]; intros i m Hc Hm; cbn [buildKeywordMap]; [exact Hm|].
  inversion Hc as [|? ? Hc1 Hcr]; subst.
  apply IH; [exact Hcr|]. apply mapSet_ok; [exact Hm|exact Hc1].
Qed.

(** X8.  When every stage of the configuration has a keyword, a check of the
    output that could read never fails: in every run from the new monitor,
    [checkOutput] is rejected only when the read failed. *)
Theorem check_fails_only_on_failed_read (config : Config) (m0 : Monitor)
    (actions : list Action) (now : Z) (output : jsstring) (send : Z -> SendResult) :
  constructor config = inr m0 ->
  Forall (fun c => keyword c <> None) (chains m0) ->
  outcomeOf (checkOutput now (ReadOk output) send (fst (run actions m0))) = Returned tt.
Proof.
  intros Hc Hk.
  destruct (run_executedFromMap actions m0) as (Hmap & _ & _).
  set (m := fst (run actions m0)) in *.
  assert (Forall (fun ke : option jsstring * ChainEntry => fst ke <> None) (keywordMap m))
    as Hkeys.
  { rewrite Hmap. unfold constructor in Hc.
    destruct (negb (truthy (cfgInstanceId config))); [discriminate|].
    destruct (cfgChains config) as [| |cs]; try discriminate.
    injection Hc as <-. cbn [keywordMap chains] in *.
    apply buildKeywordMap_keys; [exact Hk|constructor]. }
  unfold checkOutput, outcomeOf. unfold mbind, M_bind.
  destruct (isActive m) eqn:Ha.
  - rewrite (checkOutputBegin_active now m Ha). cbv zeta.
    destruct (now - default 0 (startTime m) >? timeout m); [reflexivity|].
    unfold checkOutputResume, checkForKeywords. monad_unfold. cbn [fst snd].
    match goal with
    | |- context [checkEntries now send ?es ?m2] =>
        pose proof (checkEntries_returns now send es m2 Hkeys) as H;
        unfold outcomeOf in H;
        destruct (checkEntries now send es m2) as [[r2 m2'] t2]
    end.
    cbn [fst snd] in *. exact H.
  - rewrite (checkOutputBegin_inactive now m Ha). reflexivity.
Qed.

Lemma check_fails_only_on_failed_read_witness :
  exists m0, constructor threeStages = inr m0 /\
  outcomeOf (checkOutput 5000 (ReadOk (js "undefined")) alwaysOk
               (fst (run [DoStart 0 (ReadOk []) alwaysOk] m0))) = Returned tt.
Proof.
  eexists. split; [reflexivity|].
  apply (check_fails_only_on_failed_read threeStages); [reflexivity|].
  repeat constructor; discriminate.
Defined.

Lemma includes_occurs s p :
  includes s p = true -> exists o, occursAt s p o.
Proof.
  induction s as [|c s IH]; cbn [includes]; intros H.
  - rewrite orb_false_r in H. exists 0. split; [simpl; lia|exact H].
  - apply orb_true_iff in H as [H|H].
    + exists 0. split; [simpl; lia|exact H].
    + destruct (IH H) as (o & [Ho1 Ho2] & Hs). exists (o + 1). split.
      * cbn [length]. lia.
      * replace (Z.to_nat (o + 1)) with (S (Z.to_nat o)) by lia. exact Hs.
Qed.

(** X9.  A stage without keyword is looked for under the name "undefined":
    when the first entry of the keyword map has no keyword, nothing is on
    record for it and the buffer contains that word, the check for keywords
    throws a TypeError, before any stage is looked at, and changes nothing. *)
Theorem missing_keyword_throws (now : Z) (send : Z -> SendResult) (m : Monitor)
    (e : ChainEntry) (rest : list (option jsstring * ChainEntry)) :
  keywordMap m = (None, e) :: rest ->
  lastDetectedPosition m !! None = None ->
  includes (outputBuffer m) (js "undefined") = true ->
  checkForKeywords now send m =
  (Threw (js "TypeError: Cannot read properties of undefined"), m, []).
Proof.
  intros Hmap Hrec Hinc. unfold checkForKeywords. monad_unfold. rewrite Hmap.
  cbn [checkEntries]. unfold mbind, M_bind.
  unfold detectKeywordInOutput. monad_unfold. cbn [keywordText default].
  rewrite Hinc. cbn [negb]. unfold lastPositionOf. rewrite Hrec.
  destruct (includes_occurs _ _ Hinc) as (o & Ho).
  pose proof (lastIndexOf_ge _ _ _ Ho) as Hge. destruct Ho as [[Ho _] _].
  destruct (Z.leb_spec (lastIndexOf (outputBuffer m) (js "undefined")) (-1)); [lia|].
  destruct (splitLines (outputBuffer m)) as [|line lines] eqn:Hs.
  - destruct (outputBuffer m) as [|c b]; cbn [splitLines] in Hs; [discriminate|].
    destruct (c =? 10)%N; [discriminate|]. destruct (splitLines b); discriminate.
  - cbn [scanLines]. reflexivity.
Qed.

Lemma missing_keyword_throws_witness :
  exists m0, constructor (mkConfig (Some (js "test"))
                            (ChainsArray [stageWithoutKeyword; stage2]) None) = inr m0 /\
  let m := set_outputBuffer (js "x is undefined") m0 in
  checkForKeywords 0 alwaysOk m =
  (Threw (js "TypeError: Cannot read properties of undefined"), m, []).
Proof.
  eexists. split; [reflexivity|]. cbv zeta.
  eapply missing_keyword_throws; reflexivity.
Defined.

(** X10.  A firing of the timer after the deadline, measured from the start,
    reads nothing and sends nothing, whatever is on the screen: it clears
    the timer and emits [stopped] and then the timeout event with the
    current chain index and the number of executed stages. *)
Theorem poll_after_deadline (now : Z) (read : ReadResult) (send : Z -> SendResult)
    (m : Monitor) :
  isActive m = true ->
  interval m = true ->
  timeout m < now - default 0 (startTime m) ->
  tick now read send m =
  (Returned tt,
   set_interval false (set_isActive false (set_pollCount (S (pollCount m)) m)),
   [ClearInterval; Emit stopped;
    Emit (timeout_event (currentChainIndex m) (length (executedChains m)))]).
Proof.
  intros Ha Hi Ht. unfold tick, checkOutput.
  unfold mbind at 1, M_bind at 1, get. rewrite Hi. unfold catch.
  unfold mbind, M_bind. rewrite (checkOutputBegin_active now m Ha). cbv zeta.
  destruct (Z.gtb_spec (now - default 0 (startTime m)) (timeout m)); [|lia].
  unfold stopped_state, stop_trace. cbn [interval set_pollCount]. rewrite Hi.
  reflexivity.
Qed.

Lemma poll_after_deadline_witness :
  exists m0, constructor threeStages = inr m0 /\
  let m := activated 0 m0 in
  tick 600001 (ReadOk (js "IMPLEMENTED")) alwaysOk m =
  (Returned tt,
   set_interval false (set_isActive false (set_pollCount (S (pollCount m)) m)),
   [ClearInterval; Emit stopped;
    Emit (timeout_event (currentChainIndex m) (length (executedChains m)))]).
Proof.
  eexists. split; [reflexivity|]. cbv zeta.
  apply poll_after_deadline; [reflexivity|reflexivity|vm_compute; reflexivity].
Defined.

(** * Workflows and task configurations *)

(** ** Templates *)

Lemma replaceTask_eq t task :
  replaceTask (Some t) task = Returned (Some (replaceAllLiteral taskPlaceholder task t)).
Proof. reflexivity. Qed.

Lemma replaceAllFrom_no_match pat v whole rest : forall pos,
  includes rest pat = false -> replaceAllFrom pat v whole pos 0 rest = rest.
Proof.
  induction rest as [|c rest IH]; intros pos H; [reflexivity|].
  cbn [includes] in H. apply orb_false_iff in H as [Hs Hi].
  cbn [replaceAllFrom]. rewrite Hs. f_equal. apply IH, Hi.
Qed.

(** X11.  A text in which the placeholder of the task does not occur comes
    back from the replacement as it is, whatever the task. *)
Theorem replaceTask_without_placeholder (text task : jsstring) :
  includes text taskPlaceholder = false ->
  replaceTask (Some text) task = Returned (Some text).
Proof.
  intros H. rewrite replaceTask_eq. unfold replaceAllLiteral.
  rewrite replaceAllFrom_no_match by exact H. reflexivity.
Qed.

Lemma replaceTask_without_placeholder_witness :
  replaceTask (Some (js "Run the tests {TASK}")) (js "parser") =
  Returned (Some (js "Run the tests {TASK}")).
Proof. apply replaceTask_without_placeholder. reflexivity. Defined.

Lemma expandReplacement_plain matched before after v :
  36%N ∉ v -> expandReplacement matched before after v = v.
Proof.
  induction v as [|c v IH]; intros H; [reflexivity|].
  cbn [expandReplacement].
  destruct (N.eqb_spec c 36) as [->|Hc]; [exfalso; apply H; left|].
  f_equal. apply IH. intros Hin. apply H. right. exact Hin.
Qed.

Lemma replaceAllFrom_plain pat v rest : 36%N ∉ v ->
  forall whole whole' pos pos' skip,
    replaceAllFrom pat v whole pos skip rest = replaceAllFrom pat v whole' pos' skip rest.
Proof.
  intros Hv. induction rest as [|c rest IH]; intros whole whole' pos pos' skip; [reflexivity|].
  cbn [replaceAllFrom]. destruct skip as [|k]; [|apply IH].
  destruct (startsWith (c :: rest) pat).
  - rewrite !expandReplacement_plain by exact Hv. f_equal. apply IH.
  - f_equal. apply IH.
Qed.

Lemma replaceAllFrom_skip pat v whole p rest : forall pos,
  replaceAllFrom pat v whole pos (length p) (p ++ rest)
  = replaceAllFrom pat v whole (pos + length p) 0 rest.
Proof.
  induction p as [|c p IH]; intros pos.
  - cbn [length app]. rewrite Nat.add_0_r. reflexivity.
  - cbn [length app replaceAllFrom]. rewrite IH. f_equal. lia.
Qed.

Lemma replaceAllFrom_before c0 pat v whole a rest : forall pos,
  c0 ∉ a ->
  replaceAllFrom (c0 :: pat) v whole pos 0 (a ++ rest)
  = a ++ replaceAllFrom (c0 :: pat) v whole (pos + length a) 0 rest.
Proof.
  induction a as [|c a IH]; intros pos H.
  - cbn [app length]. rewrite Nat.add_0_r. reflexivity.
  - cbn [app length replaceAllFrom startsWith].
    destruct (N.eqb_spec c0 c) as [->|Hc]; [exfalso; apply H; left|].
    cbn [andb]. f_equal. rewrite IH; [f_equal; f_equal; lia|].
    intros Hin. apply H. right. exact Hin.
Qed.

(** X12.  For a task without dollar sign: the text before the first
    placeholder, when it has no opening brace, is kept, the placeholder
    becomes the task, and the rest of the text is treated in the same
    way. *)
Theorem replaceTask_first_placeholder (before after task : jsstring) :
  123%N ∉ before -> 36%N ∉ task ->
  exists rest,
    replaceTask (Some after) task = Returned (Some rest)
    /\ replaceTask (Some (before ++ taskPlaceholder ++ after)) task
       = Returned (Some (before ++ task ++ rest)).
Proof.
  intros Hb Ht. eexists. split; [apply replaceTask_eq|].
  rewrite replaceTask_eq. do 2 f_equal. unfold replaceAllLiteral.
  change taskPlaceholder with (123%N :: js "{TASK}}").
  rewrite replaceAllFrom_before by exact Hb.
  f_equal.
  change (123%N :: js "{TASK}}") with taskPlaceholder.
  destruct after as [|c after'] eqn:Ea.
  - rewrite app_nil_r. cbn -[expandReplacement].
    rewrite expandReplacement_plain by exact Ht. rewrite app_nil_r. reflexivity.
  - rewrite <- Ea.
    change (taskPlaceholder ++ after) with (123%N :: (js "{TASK}}" ++ after)).
    cbn [replaceAllFrom].
    change (123%N :: (js "{TASK}}" ++ after)) with (taskPlaceholder ++ after).
    rewrite startsWith_app. rewrite expandReplacement_plain by exact Ht.
    f_equal.
    change (length taskPlaceholder - 1)%nat with (length (js "{TASK}}")).
    rewrite replaceAllFrom_skip.
    apply replaceAllFrom_plain, Ht.
Qed.

Lemma replaceTask_first_placeholder_witness :
  exists rest,
    replaceTask (Some (js " twice: {{TASK}}")) (js "parser") = Returned (Some rest)
    /\ replaceTask (Some (js "Test " ++ taskPlaceholder ++ js " twice: {{TASK}}")) (js "parser")
       = Returned (Some (js "Test " ++ js "parser" ++ rest)).
Proof.
  apply (replaceTask_first_placeholder (js "Test ") (js " twice: {{TASK}}") (js "parser")).
  - apply (bool_decide_unpack _). vm_compute. exact I.
  - apply (bool_decide_unpack _). vm_compute. exact I.
Defined.

Lemma replaceAllFrom_match_pattern c0 pat whole rest : forall pos skip,
  replaceAllFrom (c0 :: pat) (js "$&") whole pos skip rest = drop skip rest.
Proof.
  induction rest as [|c rest IH]; intros pos skip; [destruct skip; reflexivity|].
  cbn [replaceAllFrom]. destruct skip as [|k]; [|apply IH].
  destruct (startsWith (c :: rest) (c0 :: pat)) eqn:Hs.
  - apply startsWith_inv in Hs as [r Hr]. injection Hr as -> ->.
    rewrite IH. cbn [js list_ascii_of_string map expandReplacement].
    change (N_of_ascii "$" =? 36)%N with true. change (N_of_ascii "&" =? 36)%N with false.
    change (N_of_ascii "&" =? 38)%N with true. cbn [length].
    replace (S (length pat) - 1)%nat with (length pat) by lia.
    rewrite drop_app_length, app_nil_r. reflexivity.
  - rewrite IH. reflexivity.
Qed.

(** X13.  The task goes to [String.prototype.replace] as a replacement
    pattern, so its dollar signs are read: for the task [$&] every
    placeholder is replaced by itself, and every text comes back
    unchanged. *)
Theorem replaceTask_match_pattern (text : jsstring) :
  replaceTask (Some text) (js "$&") = Returned (Some text).
Proof.
  rewrite replaceTask_eq. unfold replaceAllLiteral.
  change taskPlaceholder with (123%N :: js "{TASK}}").
  rewrite replaceAllFrom_match_pattern. reflexivity.
Qed.



Lemma replaceAllFrom_nonempty pat v whole rest pos :
  v <> [] -> 36%N ∉ v -> rest <> [] -> replaceAllFrom pat v whole pos 0 rest <> [].
Proof.
  intros Hv Hd Hr. destruct rest as [|c rest]; [congruence|].
  cbn [replaceAllFrom]. destruct (startsWith (c :: rest) pat); [|discriminate].
  rewrite expandReplacement_plain by exact Hd.
  destruct v; [congruence|discriminate].
Qed.

(** ** Session names *)

Lemma startsWith_includes_last (p : jsstring) (c : N) (s : jsstring) :
  startsWith s (p ++ [c]) = true -> includes s [c] = true.
Proof.
  intros H. apply startsWith_inv in H as [r ->]. rewrite <- app_assoc.
  change ([c] ++ r) with (c :: r).
  induction p as [|d p IH].
  - cbn [app includes startsWith]. rewrite N.eqb_refl. reflexivity.
  - change ((d :: p) ++ c :: r) with (d :: (p ++ c :: r)).
    cbn [includes]. rewrite IH. apply orb_true_r.
Qed.

Lemma longer_differs (p s : jsstring) : p <> [] -> p ++ s <> s.
Proof.
  intros Hp H. apply (f_equal length) in H. rewrite length_app in H.
  destruct p; [congruence|]. cbn [length] in H. lia.
Qed.

(** X14.  The way back: a session name comes back from the conversion to
    an instance identifier and back exactly when it begins with
    [claude_auto_] or [claude_spec_], or with none of [claude_], [auto_] and
    [spec_]. *)
Theorem session_name_survives_iff (sessionName : jsstring) :
  instanceIdToSessionName (sessionNameToInstanceId sessionName) = sessionName
  <-> startsWith sessionName (js "claude_auto_") = true
      \/ startsWith sessionName (js "claude_spec_") = true
      \/ (startsWith sessionName (js "claude_") = false
          /\ startsWith sessionName (js "auto_") = false
          /\ startsWith sessionName (js "spec_") = false).
Proof.
  unfold instanceIdToSessionName, sessionNameToInstanceId, normalizeInstanceId.
  change (js "_") with [95%N].
  destruct (startsWith sessionName (js "claude_")) eqn:Hc.
  - apply startsWith_inv in Hc as [r ->]. rewrite replaceFirst_prefix.
    change (startsWith (js "claude_" ++ r) (js "claude_auto_")) with (startsWith r (js "auto_")).
    change (startsWith (js "claude_" ++ r) (js "claude_spec_")) with (startsWith r (js "spec_")).
    destruct (startsWith r (js "auto_")) eqn:Ha.
    + rewrite (startsWith_includes_last (js "auto") 95%N r Ha). cbn. tauto.
    + destruct (startsWith r (js "spec_")) eqn:Hs.
      * rewrite (startsWith_includes_last (js "spec") 95%N r Hs). cbn. tauto.
      * rewrite orb_true_r. split.
        -- intros H. symmetry in H. exfalso. revert H. apply longer_differs. discriminate.
        -- intros [?|[?|[? _]]]; discriminate.
  - destruct (startsWith sessionName (js "auto_")) eqn:Ha.
    + rewrite (startsWith_includes_last (js "auto") 95%N _ Ha). cbn [negb orb andb]. split.
      * intros H. exfalso. revert H. apply longer_differs. discriminate.
      * intros [H|[H|(_ & ? & _)]]; try discriminate.
        -- apply startsWith_inv in H as [r ->]. discriminate Hc.
        -- apply startsWith_inv in H as [r ->]. discriminate Hc.
    + destruct (startsWith sessionName (js "spec_")) eqn:Hs.
      * rewrite (startsWith_includes_last (js "spec") 95%N _ Hs). cbn [negb orb andb]. split.
        -- intros H. exfalso. revert H. apply longer_differs. discriminate.
        -- intros [H|[H|(_ & _ & ?)]]; try discriminate.
           ++ apply startsWith_inv in H as [r ->]. discriminate Hc.
           ++ apply startsWith_inv in H as [r ->]. discriminate Hc.
      * rewrite orb_true_r. split; [intros _; right; right; auto|reflexivity].
Qed.

(** ** The launcher *)

Lemma mapOutcome_Returned {A B} (f : A -> Outcome B) (g : A -> B) (l : list A) :
  Forall (fun x => f x = Returned (g x)) l -> mapOutcome f l = Returned (map g l).
Proof.
  induction 1 as [|x l Hx _ IH]; [reflexivity|].
  cbn [mapOutcome map]. rewrite Hx, IH. reflexivity.
Qed.

Lemma mapOutcome_inv {A B} (f : A -> Outcome B) (l : list A) : forall ys,
  mapOutcome f l = Returned ys -> Forall2 (fun x y => f x = Returned y) l ys.
Proof.
  induction l as [|x l IH]; intros ys H; cbn [mapOutcome] in H.
  - injection H as <-. constructor.
  - destruct (f x) as [y|e] eqn:Hx; [|discriminate H].
    destruct (mapOutcome f l) as [ys'|e]; [|discriminate H].
    injection H as <-. constructor; [exact Hx|]. apply IH. reflexivity.
Qed.

Lemma launcherChain_Returned task c :
  is_Some (instruction c) ->
  launcherChain task c
  = Returned (mkChain (keyword c)
                (Some (replaceAllLiteral taskPlaceholder task (default [] (instruction c))))
                (nextKeyword c)).
Proof. intros [t Ht]. unfold launcherChain. rewrite Ht. reflexivity. Qed.

Lemma launcherChain_inv task c c' :
  launcherChain task c = Returned c' -> is_Some (instruction c).
Proof.
  unfold launcherChain. destruct (instruction c); [eauto|discriminate].
Qed.

(** X15.  The launcher gets as far as a monitor exactly when the
    configuration has a task description and an initial prompt, an instance
    identifier is found, [chains] is an array in which every stage has an
    instruction, and the initial prompt could be sent.  Keywords are not
    looked at. *)
Theorem launcher_builds_monitor_iff (parsed : TaskConfig) (argInstance : option jsstring)
    (latest : Outcome (option jsstring)) (sent : SendResult) :
  (exists m, launcherMonitor parsed argInstance latest sent = Returned m)
  <-> truthy (tcTaskDescription parsed) = true
      /\ truthy (tcInitialPrompt parsed) = true
      /\ (exists i, launcherInstance parsed argInstance latest = Returned i
                    /\ truthy i = true)
      /\ (exists cs, tcChains parsed = ChainsArray cs
                     /\ Forall (fun c => is_Some (instruction c)) cs)
      /\ sent = SendOk.
Proof.
  unfold launcherMonitor, loadTaskConfig.
  destruct (truthy (tcTaskDescription parsed)) eqn:Hd; cbn [negb];
    [|split; [intros [m [=]]|intros ([=] & _)]].
  destruct (truthy (tcInitialPrompt parsed)) eqn:Hp; cbn [negb];
    [|split; [intros [m [=]]|intros (_ & [=] & _)]].
  destruct (launcherInstance parsed argInstance latest) as [i|e];
    [|split; [intros [m [=]]|intros (_ & _ & (i & [=] & _) & _)]].
  unfold processedConfig.
  destruct (tcChains parsed) as [| |cs];
    [split; [intros [m [=]]|intros (_ & _ & _ & (cs & [=] & _) & _)]..|].
  destruct (mapOutcome _ cs) as [chains'|e] eqn:Hm.
  - apply mapOutcome_inv in Hm.
    assert (Forall (fun c => is_Some (instruction c)) cs) as Hall.
    { clear -Hm. induction Hm as [|c c' cs cs' Hc _ IH]; constructor; [|exact IH].
      eapply launcherChain_inv, Hc. }
    destruct (tcInitialPrompt parsed) as [prompt|]; [|discriminate Hp].
    rewrite replaceTask_eq.
    destruct sent as [|err|err];
      [|split; [intros [m [=]]|intros (_ & _ & _ & _ & [=])]..].
    unfold constructor. cbn [cfgInstanceId cfgChains].
    destruct (truthy i) eqn:Hi; cbn [negb].
    + split; [intros _|eauto]. repeat split; eauto.
    + split; [intros [m [=]]|]. intros (_ & _ & (i' & [= <-] & Hi') & _). congruence.
  - split; [intros [m [=]]|]. intros (_ & _ & _ & (cs' & [= <-] & Hall) & _).
    rewrite (mapOutcome_Returned _ _ _
               (Forall_impl _ _ _ Hall (fun c Hc => launcherChain_Returned _ c Hc))) in Hm.
    discriminate Hm.
Qed.

Lemma launcherMonitor_Returned (parsed : TaskConfig) (argInstance : option jsstring)
    (latest : Outcome (option jsstring)) (i : option jsstring) (cs : list Chain) :
  truthy (tcTaskDescription parsed) = true ->
  truthy (tcInitialPrompt parsed) = true ->
  launcherInstance parsed argInstance latest = Returned i ->
  truthy i = true ->
  tcChains parsed = ChainsArray cs ->
  Forall (fun c => is_Some (instruction c)) cs ->
  exists m,
    launcherMonitor parsed argInstance latest SendOk = Returned m
    /\ constructor (mkConfig i
                      (ChainsArray (launchedChains
                                      (default (js "undefined") (tcTaskDescription parsed)) cs))
                      (monitorOptions (tcOptions parsed))) = inr m.
Proof.
  intros Hd Hp Hi Ht Hc Hall. unfold launcherMonitor, loadTaskConfig.
  rewrite Hd, Hp. cbn [negb]. rewrite Hi. unfold processedConfig. rewrite Hc.
  rewrite (mapOutcome_Returned _ _ _
             (Forall_impl _ _ _ Hall (fun c Hc => launcherChain_Returned _ c Hc))).
  destruct (tcInitialPrompt parsed) as [prompt|]; [|discriminate Hp].
  rewrite replaceTask_eq. fold (launchedChains (default (js "undefined") (tcTaskDescription parsed)) cs).
  unfold constructor. cbn [cfgInstanceId cfgChains]. rewrite Ht. cbn [negb].
  eexists. split; reflexivity.
Qed.

Lemma launcherInstance_truthy (config : TaskConfig) (latest : Outcome (option jsstring)) :
  truthy (tcInstanceId config) = true ->
  (exists l, latest = Returned l /\ truthy l = true) ->
  exists i, launcherInstance config None latest = Returned i /\ truthy i = true.
Proof.
  intros Hc (l & -> & Hl). unfold launcherInstance. cbn [truthy].
  destruct (bool_decide _); eauto.
Qed.

(** ** [validateWorkflow] *)

Lemma chainErrors_nil total index c :
  chainErrors total index c = [] <->
  stageFilled c
  /\ ((index < total - 1)%nat -> truthy (nextKeyword c) = true).
Proof.
  unfold chainErrors, stageFilled.
  destruct (truthy (keyword c)), (truthy (instruction c)); cbn [negb app];
    try (split; [discriminate|intros [[? ?] _]; discriminate]).
  destruct (Nat.ltb_spec index (total - 1)); cbn [andb].
  - destruct (truthy (nextKeyword c)); cbn [negb].
    + split; auto.
    + split; [discriminate|]. intros [_ H']. discriminate (H' H).
  - split; auto. intros _. split; [auto|]. intros. lia.
Qed.

Lemma chainsErrors_nil cs : forall total index,
  total = (index + length cs)%nat ->
  chainsErrors total index cs = [] <->
  Forall stageFilled cs
  /\ Forall (fun c => truthy (nextKeyword c) = true) (removelast cs).
Proof.
  induction cs as [|c cs IH]; intros total index Ht; cbn [chainsErrors].
  - split; [intros _; split; constructor|reflexivity].
  - rewrite app_nil, chainErrors_nil, (IH total (S index)) by (cbn [length] in Ht; lia).
    cbn [length] in Ht. destruct cs as [|c' cs].
    + cbn [removelast]. split.
      * intros [[Hf _] _]. split; repeat constructor; apply Hf.
      * intros [Hf _]. inversion Hf; subst. split; [split; [assumption|]|split; constructor].
        intros Hlt. exfalso. cbn [length] in Hlt. clear -Hlt. lia.
    + change (removelast (c :: c' :: cs)) with (c :: removelast (c' :: cs)). split.
      * intros [[Hf Hn] [Hfs Hns]]. split; constructor; auto.
        apply Hn. cbn [length] in Ht. lia.
      * intros [Hf Hn]. inversion Hf; subst. inversion Hn; subst. auto.
Qed.

Lemma missingField_nil b field : missingField b field = [] <-> b = false.
Proof. destruct b; cbn; split; congruence. Qed.

Lemma valid_workflowAccepted (w : Workflow) :
  valid (validateWorkflow w) = true -> workflowAccepted w.
Proof.
  unfold validateWorkflow, workflowAccepted, chainsAccepted. cbn [valid].
  assert (forall l : list jsstring, match l with [] => true | _ => false end = true <-> l = [])
    as Hnil by (intros [|? ?]; split; congruence).
  rewrite Hnil. unfold validationErrors. rewrite !app_nil, !missingField_nil.
  rewrite !negb_false_iff.
  intros (Hn & Hd & Hc & Hp & Ho & Hcb & Hob & Hpb).
  split; [exact Hn|]. split; [exact Hd|].
  rewrite Hp in Hpb. cbn [andb] in Hpb.
  destruct (wfInitialPrompt w) as [[|c prompt]|]; try discriminate Hp.
  cbn [default] in Hpb. unfold id in Hpb.
  destruct (includes (c :: prompt) (js "{{TASK}}")) eqn:Hi; [|discriminate Hpb].
  split; [exists (c :: prompt); split; [reflexivity|split; [discriminate|exact Hi]]|].
  destruct (wfOptions w) as [| |o]; [discriminate Ho|discriminate Hob|].
  split; [eauto|].
  destruct (wfChains w) as [| |cs]; [discriminate Hc|discriminate Hcb|].
  exists cs. split; [reflexivity|].
  apply app_nil in Hcb as [He Hce].
  split; [destruct cs; [discriminate He|discriminate]|].
  apply (chainsErrors_nil cs (length cs) 0 eq_refl), Hce.
Qed.

(** X16.  [validateWorkflow] finds a workflow valid exactly when name,
    description and initial prompt are present and not empty, the prompt
    shows the placeholder of the task, the options are an object, and the
    chains are an array that is not empty, in which every stage has keyword
    and instruction and every stage but the last a next keyword.  Whether
    the next keywords lead anywhere is not looked at. *)
Theorem validateWorkflow_valid_iff (w : Workflow) :
  valid (validateWorkflow w) = true <-> workflowAccepted w.
Proof.
  split; [apply valid_workflowAccepted|].
  unfold validateWorkflow, workflowAccepted, chainsAccepted. cbn [valid].
  assert (forall l : list jsstring, match l with [] => true | _ => false end = true <-> l = [])
    as Hnil by (intros [|? ?]; split; congruence).
  rewrite Hnil. unfold validationErrors. rewrite !app_nil, !missingField_nil.
  rewrite !negb_false_iff.
  intros (Hn & Hd & (p & Hp & Hne & Hi) & (o & Ho) & (cs & Hc & Hne' & Hf)).
  rewrite Hn, Hd, Hp, Ho, Hc.
  assert (truthy (Some p) = true) as Ht by (destruct p; [congruence|reflexivity]).
  rewrite Ht. cbn [default andb]. unfold id. rewrite Hi. cbn [negb].
  repeat (split; [reflexivity|]). split; [|auto].
  apply app_nil. split; [destruct cs; [congruence|reflexivity]|].
  apply (chainsErrors_nil cs (length cs) 0 eq_refl), Hf.
Qed.

Lemma validateWorkflow_valid_iff_witness : valid (validateWorkflow defaultWorkflow) = true.
Proof.
  apply (proj2 (validateWorkflow_valid_iff defaultWorkflow)).
  unfold workflowAccepted, chainsAccepted. cbn.
  split; [reflexivity|]. split; [reflexivity|].
  split; [eexists; split; [reflexivity|split; [discriminate|vm_compute; reflexivity]]|].
  split; [eauto|]. eexists. split; [reflexivity|].
  split; [discriminate|]. split; repeat constructor.
Defined.

Lemma truthy_Some (s : jsstring) : truthy (Some s) = true <-> s <> [].
Proof. destruct s; cbn [truthy]; split; congruence. Qed.

Lemma filled_nonempty (task text : jsstring) :
  task <> [] -> 36%N ∉ task -> text <> [] ->
  replaceAllLiteral taskPlaceholder task text <> [].
Proof. intros. apply replaceAllFrom_nonempty; assumption. Qed.

Lemma presetChain_Returned task c :
  is_Some (instruction c) ->
  presetChain task c
  = Returned (mkChain (keyword c)
                (Some (replaceAllLiteral taskPlaceholder task (default [] (instruction c))))
                (if truthy (nextKeyword c) then nextKeyword c else None)).
Proof. intros [t Ht]. unfold presetChain. rewrite Ht. reflexivity. Qed.

(** X17.  [buildWorkflowFromPreset] builds a configuration exactly for
    the presets [validateWorkflow] finds valid; for every other preset it
    throws the error of [loadWorkflow], which names the preset and lists
    the errors found. *)
Theorem preset_is_built_iff_valid (presetName task : jsstring) (w : Workflow)
    (instance : option jsstring) :
  ((exists tc, buildWorkflowFromPreset presetName w task instance = Returned tc)
   <-> valid (validateWorkflow w) = true)
  /\ (valid (validateWorkflow w) = false ->
      buildWorkflowFromPreset presetName w task instance
      = Threw (js "Invalid workflow '" ++ presetName ++ js "': "
               ++ joinWith (js ", ") (errors (validateWorkflow w)))).
Proof.
  split.
  - split.
    + intros [tc H]. unfold buildWorkflowFromPreset, loadWorkflow in H.
      destruct (valid (validateWorkflow w)); [reflexivity|discriminate H].
    + intros Hv.
      destruct (valid_workflowAccepted w Hv)
        as (_ & _ & (p & Hp & _) & _ & (cs & Hc & _ & Hf & _)).
      unfold buildWorkflowFromPreset, loadWorkflow. rewrite Hv. cbn [negb]. rewrite Hc.
      assert (Forall (fun c => is_Some (instruction c)) cs) as Hsome.
      { eapply Forall_impl; [exact Hf|]. intros c [_ Hi].
        destruct (instruction c); [eauto|discriminate Hi]. }
      rewrite (mapOutcome_Returned _ _ _
                 (Forall_impl _ _ _ Hsome (fun c Hc => presetChain_Returned _ c Hc))).
      rewrite Hp, replaceTask_eq. eauto.
  - intros Hv. unfold buildWorkflowFromPreset, loadWorkflow. rewrite Hv. reflexivity.
Qed.

(** X18.  A preset that [validateWorkflow] finds valid, with a task that
    is not empty and has no dollar sign, goes all the way: the
    configuration is built, the launcher accepts it and constructs a
    monitor that has the keywords of the preset in their order, every stage
    with a keyword and an instruction, the task having been filled in
    twice, once by the builder and once by the launcher. *)
Theorem valid_preset_reaches_the_monitor (presetName task : jsstring) (w : Workflow)
    (instance : option jsstring) (latest : Outcome (option jsstring)) :
  valid (validateWorkflow w) = true ->
  task <> [] -> 36%N ∉ task ->
  (exists l, latest = Returned l /\ truthy l = true) ->
  exists cs tc m,
    wfChains w = ChainsArray cs
    /\ buildWorkflowFromPreset presetName w task instance = Returned tc
    /\ launcherMonitor tc None latest SendOk = Returned m
    /\ map keyword (chains m) = map keyword cs
    /\ map instruction (chains m)
       = map (fun c => Some (replaceAllLiteral taskPlaceholder task
                               (replaceAllLiteral taskPlaceholder task
                                  (default [] (instruction c))))) cs
    /\ Forall (fun c => truthy (keyword c) = true /\ truthy (instruction c) = true)
         (chains m).
Proof.
  intros Hv Ht Hd Hl.
  destruct (valid_workflowAccepted w Hv)
    as (_ & _ & (p & Hp & Hpn & _) & (o & Ho) & (cs & Hc & _ & Hf & _)).
  assert (Forall (fun c => is_Some (instruction c)) cs) as Hsome.
  { eapply Forall_impl; [exact Hf|]. intros c [_ Hi].
    destruct (instruction c); [eauto|discriminate Hi]. }
  set (built := map (fun c => mkChain (keyword c)
                        (Some (replaceAllLiteral taskPlaceholder task
                                 (default [] (instruction c))))
                        (if truthy (nextKeyword c) then nextKeyword c else None)) cs).
  set (tc := {| tcInstanceId := Some (if truthy instance then default [] instance
                                       else js "YOUR_INSTANCE_ID");
                tcTaskDescription := Some task;
                tcChains := ChainsArray built;
                tcInitialPrompt := Some (replaceAllLiteral taskPlaceholder task p);
                tcOptions := OptionsObject o |}).
  assert (buildWorkflowFromPreset presetName w task instance = Returned tc) as Hb.
  { unfold buildWorkflowFromPreset, loadWorkflow. rewrite Hv. cbn [negb]. rewrite Hc.
    rewrite (mapOutcome_Returned _ _ _
               (Forall_impl _ _ _ Hsome (fun c Hc => presetChain_Returned _ c Hc))).
    rewrite Hp, replaceTask_eq, Ho. reflexivity. }
  assert (truthy (tcInstanceId tc) = true) as Hid.
  { cbn [tc tcInstanceId]. destruct instance as [[|? ?]|]; reflexivity. }
  destruct (launcherInstance_truthy tc latest Hid Hl) as (i & Hi & Hti).
  destruct (launcherMonitor_Returned tc None latest i built) as (m & Hm & Hk); try assumption.
  - cbn [tc tcTaskDescription]. apply truthy_Some, Ht.
  - cbn [tc tcInitialPrompt]. apply truthy_Some, filled_nonempty; assumption.
  - reflexivity.
  - unfold built. apply Forall_map. apply Forall_true. intros c. cbn [instruction]. eauto.
  - exists cs, tc, m. split; [exact Hc|]. split; [exact Hb|]. split; [exact Hm|].
    unfold constructor in Hk. cbn [cfgInstanceId cfgChains] in Hk. rewrite Hti in Hk.
    cbn [negb] in Hk. injection Hk as <-. cbn [chains tc tcTaskDescription default].
    unfold launchedChains, built. rewrite !map_map. cbn [keyword instruction default].
    split; [reflexivity|]. split; [reflexivity|].
    apply Forall_map. eapply Forall_impl; [exact Hf|]. intros c [Hkw Hin].
    cbn [keyword instruction]. split; [exact Hkw|].
    apply truthy_Some. do 2 (apply filled_nonempty; try assumption).
    destruct (instruction c) as [[|? ?]|]; try discriminate Hin. discriminate.
Qed.

Lemma valid_preset_reaches_the_monitor_witness :
  exists cs tc m,
    wfChains defaultWorkflow = ChainsArray cs
    /\ buildWorkflowFromPreset (js "default") defaultWorkflow (js "parser") None = Returned tc
    /\ launcherMonitor tc None (Returned (Some (js "dev"))) SendOk = Returned m
    /\ map keyword (chains m) = map keyword cs
    /\ map instruction (chains m)
       = map (fun c => Some (replaceAllLiteral taskPlaceholder (js "parser")
                               (replaceAllLiteral taskPlaceholder (js "parser")
                                  (default [] (instruction c))))) cs
    /\ Forall (fun c => truthy (keyword c) = true /\ truthy (instruction c) = true)
         (chains m).
Proof.
  apply (valid_preset_reaches_the_monitor (js "default") (js "parser") defaultWorkflow None
           (Returned (Some (js "dev")))).
  - vm_compute. reflexivity.
  - discriminate.
  - apply (bool_decide_unpack _). vm_compute. exact I.
  - eexists. split; reflexivity.
Defined.

(** ** Custom stages *)







Section CustomStagesFacts.

Variable toUpperCase : jsstring -> jsstring.





End CustomStagesFacts.





(** * Command lines and the pane *)

(** ** [parseCommandLineArgs] *)

Lemma setFlag_positional name value result :
  positional (setFlag name value result) = positional result.
Proof. unfold setFlag. destruct (bool_decide _); reflexivity. Qed.

Lemma setFlag_lookup name value result k v :
  flags (setFlag name value result) !! k = Some v ->
  flags result !! k = Some v \/ (k = name /\ v = value).
Proof.
  unfold setFlag. destruct (bool_decide _); [auto|]. cbn [flags].
  destruct (decide (name = k)) as [->|Hne].
  - rewrite lookup_insert_eq. intros [= <-]. auto.
  - rewrite lookup_insert_ne by exact Hne. auto.
Qed.

Section ParseInvariant.

Variable o : ParseOptions.
Variable all : list jsstring.

Lemma wellFormed_true name result :
  wellFormed o all result -> wellFormed o all (setFlag name FlagTrue result).
Proof.
  intros [Hp Hf]. split.
  - rewrite setFlag_positional. exact Hp.
  - intros k v H. apply setFlag_lookup in H as [H|[_ [=]]]. apply (Hf k v H).
Qed.

Lemma parseLoop_wellFormed (n : nat) : forall args result,
  (length args <= n)%nat ->
  (forall a, a ∈ args -> a ∈ all) ->
  wellFormed o all result -> wellFormed o all (parseLoop o args result).
Proof.
  induction n as [|n IH]; intros args result Hlen Hall Hw.
  - destruct args; [exact Hw|cbn [length] in Hlen; lia].
  - destruct args as [|arg rest]; [exact Hw|]. cbn [length] in Hlen.
    assert (forall a, a ∈ rest -> a ∈ all) as Hrest
      by (intros a Ha; apply Hall; right; exact Ha).
    cbn [parseLoop].
    destruct (startsWith arg (js "--") || startsWith arg (js "-")) eqn:Hdash.
    + destruct (listed (booleanFlags o) _) eqn:Hb.
      * apply IH; [lia|exact Hrest|apply wellFormed_true, Hw].
      * destruct rest as [|next rest'].
        -- apply IH; [cbn [length]; lia|exact Hrest|apply wellFormed_true, Hw].
        -- destruct (listed (stringFlags o) _ && truthy (Some next)
                     && negb (startsWith next (js "-"))) eqn:Hs.
           ++ apply andb_true_iff in Hs as [Hs Hnd]. apply andb_true_iff in Hs as [Hs Ht].
              apply negb_true_iff in Hnd.
              destruct (actualFlagOf (aliases o) (stripDashes arg)) as [a|]; [|discriminate Hs].
              cbn [listed] in Hs. apply bool_decide_eq_true_1 in Hs. cbn [default]. unfold id.
              apply IH.
              ** cbn [length] in Hlen. lia.
              ** intros a' Ha'. apply Hrest. right. exact Ha'.
              ** destruct Hw as [Hp Hf]. split.
                 --- rewrite setFlag_positional. exact Hp.
                 --- intros k v H. apply setFlag_lookup in H as [H|[-> [= ->]]].
                     +++ apply (Hf k v H).
                     +++ split; [exact Hs|]. split; [apply Hrest; left|].
                         split; [|exact Hnd]. destruct next; [discriminate Ht|discriminate].
           ++ apply IH; [lia|exact Hrest|apply wellFormed_true, Hw].
    + apply orb_false_iff in Hdash as [_ Hdash].
      apply IH; [lia|exact Hrest|]. destruct Hw as [Hp Hf]. split; [|exact Hf].
      cbn [positional]. intros p Hin. apply elem_of_app in Hin as [Hin|Hin].
      * apply (Hp p Hin).
      * apply list_elem_of_singleton in Hin as ->. split; [apply Hall; left|exact Hdash].
Qed.

End ParseInvariant.

(** X21.  Whatever the arguments and the options, every positional
    argument [parseCommandLineArgs] gives back is one of the arguments and
    does not begin with a dash; and a flag that holds a text is a string
    flag, its text being an argument that is not empty and does not begin
    with a dash. *)
Theorem parsed_values_come_from_the_arguments (args : list jsstring) (o : ParseOptions) :
  (forall p, p ∈ positional (parseCommandLineArgs args o) ->
     p ∈ args /\ startsWith p (js "-") = false)
  /\ (forall k v, flags (parseCommandLineArgs args o) !! k = Some (FlagText v) ->
        k ∈ stringFlags o /\ v ∈ args /\ v <> [] /\ startsWith v (js "-") = false).
Proof.
  apply (parseLoop_wellFormed o args (length args)); [lia|auto|].
  split; [intros p H; inversion H|].
  intros k v H. cbn [flags] in H. rewrite lookup_empty in H. discriminate H.
Qed.

(** ** [parseArgs] of quick_task.js *)

Lemma startsWith_dashes (arg : jsstring) :
  startsWith arg (js "-") = false ->
  startsWith arg (js "--") || startsWith arg (js "-") = false.
Proof.
  intros H. rewrite H, orb_false_r. destruct arg as [|c r]; [reflexivity|].
  cbn [js list_ascii_of_string map startsWith] in *.
  destruct (N_of_ascii "-" =? c)%N; [discriminate H|reflexivity].
Qed.

Lemma parseLoop_plain (o : ParseOptions) (args : list jsstring) : forall result,
  Forall (fun arg => startsWith arg (js "-") = false) args ->
  parseLoop o args result = mkParsedArgs (positional result ++ args) (flags result).
Proof.
  induction args as [|arg rest IH]; intros result H.
  - rewrite app_nil_r. destruct result; reflexivity.
  - inversion H as [|? ? Harg Hrest]; subst. cbn [parseLoop].
    rewrite (startsWith_dashes arg Harg), IH by exact Hrest.
    cbn [positional flags]. rewrite <- app_assoc. reflexivity.
Qed.

(** X22.  A command line without a dash at the beginning of any argument:
    the task is the first argument, the preset is [default], nothing else
    is set. *)
Theorem parseArgs_without_flags (args : list jsstring) :
  Forall (fun arg => startsWith arg (js "-") = false) args ->
  parseArgs args
  = Returned {| qtTask := head args;
                qtInstanceId := None;
                qtSessionName := None;
                qtCustomName := None;
                qtPreset := FlagText (js "default");
                qtCustomStages := None |}.
Proof.
  intros H. unfold parseArgs, parseCommandLineArgs. rewrite parseLoop_plain by exact H.
  cbn [flags positional app]. rewrite !lookup_empty. reflexivity.
Qed.

Lemma parseArgs_without_flags_witness :
  parseArgs [js "Fix the parser"; js "now"]
  = Returned {| qtTask := Some (js "Fix the parser");
                qtInstanceId := None;
                qtSessionName := None;
                qtCustomName := None;
                qtPreset := FlagText (js "default");
                qtCustomStages := None |}.
Proof.
  apply (parseArgs_without_flags [js "Fix the parser"; js "now"]).
  constructor; [reflexivity|]. constructor; [reflexivity|]. constructor.
Defined.

Lemma parseLoop_cons (o : ParseOptions) (arg : jsstring) (rest : list jsstring)
    (result : ParsedArgs) :
  parseLoop o (arg :: rest) result
  = if startsWith arg (js "--") || startsWith arg (js "-") then
      if listed (booleanFlags o) (actualFlagOf (aliases o) (stripDashes arg)) then
        parseLoop o rest
          (setFlag (default [] (actualFlagOf (aliases o) (stripDashes arg))) FlagTrue result)
      else
        match rest with
        | next :: rest' =>
            if listed (stringFlags o) (actualFlagOf (aliases o) (stripDashes arg))
               && truthy (Some next) && negb (startsWith next (js "-"))
            then parseLoop o rest'
                   (setFlag (default [] (actualFlagOf (aliases o) (stripDashes arg)))
                      (FlagText next) result)
            else parseLoop o rest (setFlag (stripDashes arg) FlagTrue result)
        | [] => parseLoop o rest (setFlag (stripDashes arg) FlagTrue result)
        end
    else parseLoop o rest (mkParsedArgs (positional result ++ [arg]) (flags result)).
Proof. reflexivity. Qed.

Lemma parseLoop_flag_last (o : ParseOptions) (flag : jsstring) :
  startsWith flag (js "-") = true ->
  forall n args result, (length args <= n)%nat ->
    parseLoop o (args ++ [flag]) result = parseLoop o [flag] (parseLoop o args result).
Proof.
  intros Hflag. induction n as [|n IH]; intros args result Hlen.
  - destruct args; [reflexivity|cbn [length] in Hlen; lia].
  - destruct args as [|arg rest]; [reflexivity|]. cbn [length] in Hlen.
    change ((arg :: rest) ++ [flag]) with (arg :: (rest ++ [flag])).
    rewrite (parseLoop_cons o arg (rest ++ [flag])), (parseLoop_cons o arg rest).
    destruct (startsWith arg (js "--") || startsWith arg (js "-")); [|apply IH; lia].
    destruct (listed (booleanFlags o) _); [apply IH; lia|].
    destruct rest as [|next rest'].
    + cbn [app]. rewrite Hflag. cbn [negb]. rewrite andb_false_r. reflexivity.
    + change ((next :: rest') ++ [flag]) with (next :: (rest' ++ [flag])). cbv iota.
      destruct (listed (stringFlags o) _ && truthy (Some next)
                && negb (startsWith next (js "-"))).
      * apply IH. cbn [length] in Hlen. lia.
      * apply (IH (next :: rest')). lia.
Qed.

(** X23.  A command line that ends in [--stages] makes [parseArgs] throw:
    the flag holds [true], on which [split] cannot be called. *)
Theorem trailing_stages_flag_throws (args : list jsstring) :
  exists e, parseArgs (args ++ [js "--stages"]) = Threw e.
Proof.
  unfold parseArgs, parseCommandLineArgs.
  rewrite (parseLoop_flag_last quickTaskOptions (js "--stages") eq_refl (length args))
    by reflexivity.
  set (r := parseLoop quickTaskOptions args _).
  assert (parseLoop quickTaskOptions [js "--stages"] r
          = mkParsedArgs (positional r) (<[js "stages" := FlagTrue]> (flags r))) as ->.
  { cbn [parseLoop].
    change (startsWith (js "--stages") (js "--") || startsWith (js "--stages") (js "-"))
      with true.
    change (stripDashes (js "--stages")) with (js "stages"). cbv iota.
    assert (actualFlagOf (aliases quickTaskOptions) (js "stages") = Some (js "stages")) as ->
      by (vm_compute; reflexivity).
    reflexivity. }
  cbn [flags]. rewrite lookup_insert_eq. eauto.
Qed.

(** X24.  A one-letter alias at the end of the command line is recorded
    under its own name, not under the name it stands for: [parseArgs]
    answers as if it were not there. *)
Theorem trailing_alias_is_dropped (args : list jsstring) (alias : jsstring) :
  alias ∈ [js "i"; js "s"; js "p"; js "t"; js "n"] ->
  parseArgs (args ++ [js "-" ++ alias]) = parseArgs args.
Proof.
  intros Hin. unfold parseArgs, parseCommandLineArgs.
  assert (startsWith (js "-" ++ alias) (js "-") = true) as Hflag by reflexivity.
  rewrite (parseLoop_flag_last quickTaskOptions _ Hflag (length args)) by reflexivity.
  set (r := parseLoop quickTaskOptions args _).
  assert (parseLoop quickTaskOptions [js "-" ++ alias] r
          = mkParsedArgs (positional r) (<[alias := FlagTrue]> (flags r))
          /\ alias <> js "stages" /\ alias <> js "instance" /\ alias <> js "session"
          /\ alias <> js "name" /\ alias <> js "preset") as (-> & H1 & H2 & H3 & H4 & H5).
  { repeat (apply elem_of_cons in Hin as [->|Hin];
            [split; [|repeat split; discriminate];
             cbn [parseLoop];
             match goal with
             | |- context [actualFlagOf ?a ?f] =>
                 let v := eval vm_compute in (actualFlagOf a f) in
                 change (actualFlagOf a f) with v
             end; reflexivity|]).
    inversion Hin. }
  cbn [flags positional]. rewrite !lookup_insert_ne by assumption. reflexivity.
Qed.

Lemma trailing_alias_is_dropped_witness :
  parseArgs ([js "Fix the parser"] ++ [js "-" ++ js "s"]) = parseArgs [js "Fix the parser"].
Proof.
  apply (trailing_alias_is_dropped [js "Fix the parser"] (js "s")).
  apply (bool_decide_unpack _). vm_compute. exact I.
Defined.

(** ** [readFromInstance] *)

Lemma split2_cons (a b c d : N) (s : jsstring) :
  split2 a b (c :: d :: s)
  = if (c =? a)%N && (d =? b)%N then [] :: split2 a b s
    else match split2 a b (d :: s) with
         | l :: ls => (c :: l) :: ls
         | [] => [[c]]
         end.
Proof. reflexivity. Qed.

Lemma split2_whole (a b : N) (s : jsstring) :
  includes s [a; b] = false -> split2 a b s = [s].
Proof.
  induction s as [|c s IH]; intros H; [reflexivity|].
  cbn [includes] in H. apply orb_false_iff in H as [Hs Hi].
  destruct s as [|d s]; [reflexivity|].
  rewrite split2_cons, (IH Hi).
  cbn [startsWith] in Hs. rewrite andb_true_r in Hs.
  rewrite (N.eqb_sym c a), (N.eqb_sym d b), Hs. reflexivity.
Qed.

Lemma lastLines_whole (lines : Z) (output : jsstring) :
  includes output backslashN = false -> lastLines lines output = output.
Proof.
  intros H. unfold lastLines. rewrite (split2_whole _ _ _ H). cbn [length].
  destruct (0 <? lines) eqn:Hl; [|reflexivity].
  apply Z.ltb_lt in Hl. destruct (lines <? Z.of_nat 1) eqn:Hl'; [|reflexivity].
  apply Z.ltb_lt in Hl'. lia.
Qed.

(** X25.  [readFromInstance] cuts the pane at the two characters backslash
    and n, not at line ends: a pane in which that pair does not occur comes
    back whole, whatever the number of lines asked for. *)
Theorem read_keeps_the_whole_pane (hasSession capturePane : jsstring -> TmuxResult)
    (instanceId : jsstring) (lines : Z) (found output : jsstring) :
  hasSession (normalizeInstanceId instanceId) = TmuxOk found ->
  capturePane (normalizeInstanceId instanceId) = TmuxOk output ->
  includes output backslashN = false ->
  readFromInstance hasSession capturePane instanceId lines = ReadOk output.
Proof.
  intros Hs Hc Hn. unfold readFromInstance. fold (normalizeInstanceId instanceId).
  rewrite Hs, Hc, (lastLines_whole lines output Hn). reflexivity.
Qed.

Lemma read_keeps_the_whole_pane_witness :
  readFromInstance (fun _ => TmuxOk []) (fun _ => TmuxOk (js "one" ++ [10%N] ++ js "two"))
    (js "auto_7") 1
  = ReadOk (js "one" ++ [10%N] ++ js "two").
Proof.
  apply (read_keeps_the_whole_pane (fun _ => TmuxOk [])
           (fun _ => TmuxOk (js "one" ++ [10%N] ++ js "two")) (js "auto_7") 1 []);
    reflexivity.
Defined.

Lemma split2_nonempty (a b : N) (s : jsstring) : split2 a b s <> [].
Proof.
  induction s as [|c s IH]; [discriminate|].
  destruct s as [|d s]; [discriminate|]. rewrite split2_cons.
  destruct ((c =? a)%N && (d =? b)%N); [discriminate|].
  destruct (split2 a b (d :: s)); discriminate.
Qed.

Lemma joinWith_cons (sep x : jsstring) (rest : list jsstring) :
  rest <> [] -> joinWith sep (x :: rest) = x ++ sep ++ joinWith sep rest.
Proof. destruct rest; [congruence|reflexivity]. Qed.

Lemma joinWith_head (sep : jsstring) (c : N) (l : jsstring) (ls : list jsstring) :
  joinWith sep ((c :: l) :: ls) = c :: joinWith sep (l :: ls).
Proof. destruct ls; reflexivity. Qed.

Lemma split2_suffix (a b : N) (n : nat) : forall s, (length s <= n)%nat ->
  joinWith [a; b] (split2 a b s) = s
  /\ forall k, exists before, s = before ++ joinWith [a; b] (drop k (split2 a b s)).
Proof.
  induction n as [|n IH]; intros s Hlen.
  - destruct s; [|cbn [length] in Hlen; lia]. split; [reflexivity|].
    intros [|k]; [exists []; reflexivity|].
    exists []. cbn [split2 drop]. rewrite drop_nil. reflexivity.
  - destruct s as [|c [|d s]].
    + split; [reflexivity|]. intros [|k]; [exists []; reflexivity|].
      exists []. cbn [split2 drop]. rewrite drop_nil. reflexivity.
    + split; [reflexivity|]. intros [|k]; [exists []; reflexivity|].
      exists [c]. cbn [split2 drop]. rewrite drop_nil. reflexivity.
    + cbn [length] in Hlen. rewrite split2_cons.
      destruct ((c =? a)%N && (d =? b)%N) eqn:Hm.
      * apply andb_true_iff in Hm as [Hc Hd].
        apply N.eqb_eq in Hc as ->. apply N.eqb_eq in Hd as ->.
        destruct (IH s ltac:(lia)) as [Hj Hk].
        split.
        -- rewrite joinWith_cons by apply split2_nonempty. rewrite Hj. reflexivity.
        -- intros [|k].
           ++ exists []. cbn [drop app].
              rewrite joinWith_cons by apply split2_nonempty. rewrite Hj. reflexivity.
           ++ cbn [drop]. destruct (Hk k) as [before Hb].
              exists (a :: b :: before). cbn [app]. do 2 f_equal. exact Hb.
      * destruct (IH (d :: s) ltac:(cbn [length]; lia)) as [Hj Hk].
        pose proof (split2_nonempty a b (d :: s)) as Hne.
        destruct (split2 a b (d :: s)) as [|l ls]; [congruence|].
        split.
        -- rewrite joinWith_head, Hj. reflexivity.
        -- intros [|k].
           ++ exists []. cbn [drop app]. rewrite joinWith_head, Hj. reflexivity.
           ++ destruct (Hk (S k)) as [before Hb]. cbn [drop] in *.
              exists (c :: before). cbn [app]. f_equal. exact Hb.
Qed.

Lemma lastLines_suffix (lines : Z) (output : jsstring) :
  exists before, output = before ++ lastLines lines output.
Proof.
  unfold lastLines. destruct (0 <? lines); [|exists []; reflexivity].
  destruct (lines <? _); [|exists []; reflexivity].
  apply (proj2 (split2_suffix 92 110 (length output) output (le_n _))).
Qed.

(** X26.  What [readFromInstance] gives back is always an end of what was
    captured from the pane. *)
Theorem read_gives_the_end_of_the_pane (hasSession capturePane : jsstring -> TmuxResult)
    (instanceId : jsstring) (lines : Z) (output : jsstring) :
  readFromInstance hasSession capturePane instanceId lines = ReadOk output ->
  exists before,
    capturePane (normalizeInstanceId instanceId) = TmuxOk (before ++ output).
Proof.
  unfold readFromInstance. fold (normalizeInstanceId instanceId).
  destruct (hasSession _); [|discriminate].
  destruct (capturePane _) as [captured|]; [|discriminate].
  intros [= <-]. destruct (lastLines_suffix lines captured) as [before Hb].
  exists before. rewrite <- Hb. reflexivity.
Qed.

Lemma read_gives_the_end_of_the_pane_witness :
  exists before,
    (fun _ : jsstring => TmuxOk (js "one\ntwo")) (normalizeInstanceId (js "dev"))
    = TmuxOk (before ++ js "two").
Proof.
  apply (read_gives_the_end_of_the_pane (fun _ => TmuxOk [])
           (fun _ => TmuxOk (js "one\ntwo")) (js "dev") 1 (js "two")).
  reflexivity.
Defined.

(** ** [listInstances] *)

Section ListInstancesFacts.

Variable isoDate : option jsstring -> Outcome jsstring.

Lemma instanceOfLine_named (line : jsstring) (instance : Instance) :
  instanceOfLine isoDate line = Returned (Some instance) ->
  startsWith (instSessionName instance) (js "claude_") = true
  /\ instInstanceId instance = sessionNameToInstanceId (instSessionName instance).
Proof.
  unfold instanceOfLine.
  destruct (truthy _ && startsWith _ (js "claude_")) eqn:H; [|discriminate].
  apply andb_true_iff in H as [_ Hs].
  destruct (isoDate _); [|discriminate]. intros [= <-]. cbn [instSessionName instInstanceId].
  split; [exact Hs|]. unfold sessionNameToInstanceId. rewrite Hs. reflexivity.
Qed.

Lemma collectInstances_spec (P : Instance -> Prop) (lines : list jsstring) :
  (forall line instance,
     instanceOfLine isoDate line = Returned (Some instance) -> P instance) ->
  forall instances result,
    collectInstances isoDate lines instances = Returned result ->
    Forall P instances ->
    Forall P result /\ (length result <= length instances + length lines)%nat.
Proof.
  intros HP. induction lines as [|line rest IH]; intros instances result H Hall.
  - injection H as <-. split; [exact Hall|lia].
  - cbn [collectInstances] in H.
    destruct (instanceOfLine isoDate line) as [[instance|]|] eqn:Hl; [| |discriminate H].
    + destruct (IH _ _ H) as [Hr Hlen].
      * apply Forall_app. split; [exact Hall|]. constructor; [|constructor].
        apply (HP line instance Hl).
      * split; [exact Hr|]. rewrite length_app in Hlen. cbn [length] in *. lia.
    + destruct (IH _ _ H Hall) as [Hr Hlen]. split; [exact Hr|]. cbn [length]. lia.
Qed.

End ListInstancesFacts.

(** X27.  Every instance [listInstances] lists is a session whose name
    begins with [claude_], and its identifier is what
    [sessionNameToInstanceId] makes of that name. *)
Theorem listed_instances_are_claude_sessions (isoDate : option jsstring -> Outcome jsstring)
    (listSessions : TmuxResult) (instances : list Instance) :
  listInstances isoDate listSessions = Listed instances ->
  Forall (fun instance =>
            startsWith (instSessionName instance) (js "claude_") = true
            /\ instInstanceId instance = sessionNameToInstanceId (instSessionName instance))
    instances.
Proof.
  unfold listInstances. destruct listSessions as [output|err].
  - destruct (collectInstances _ _ _) as [result|] eqn:Hc; [|discriminate].
    intros [= <-].
    apply (collectInstances_spec isoDate _ _ (instanceOfLine_named isoDate) [] result Hc).
    constructor.
  - intros [= <-]. constructor.
Qed.

(** X28.  [listInstances] cuts the answer of tmux at the two characters
    backslash and n, not at line ends: from an answer in which that pair
    does not occur at most one instance is listed, however many sessions
    there are. *)
Theorem only_the_first_session_is_listed (isoDate : option jsstring -> Outcome jsstring)
    (output : jsstring) (instances : list Instance) :
  includes output backslashN = false ->
  listInstances isoDate (TmuxOk output) = Listed instances ->
  (length instances <= 1)%nat.
Proof.
  intros Hn. unfold listInstances. rewrite (split2_whole _ _ _ Hn).
  destruct (collectInstances _ _ _) as [result|] eqn:Hc; [|discriminate].
  intros [= <-].
  destruct (collectInstances_spec isoDate (fun _ => True) _ (fun _ _ _ => I) [] result Hc)
    as [_ Hlen]; [constructor|].
  cbn [length] in Hlen. etransitivity; [exact Hlen|].
  cbn [filter list_filter]. destruct (decide _); cbn [length]; lia.
Qed.

Lemma listed_instances_are_claude_sessions_witness :
  Forall (fun instance =>
            startsWith (instSessionName instance) (js "claude_") = true
            /\ instInstanceId instance = sessionNameToInstanceId (instSessionName instance))
    [mkInstance (js "auto_1") (js "claude_auto_1") (js "2023-11-14T22:13:20.000Z")].
Proof.
  apply (listed_instances_are_claude_sessions
           (fun _ => Returned (js "2023-11-14T22:13:20.000Z"))
           (TmuxOk (js "claude_auto_1|1700000000\nmain|1700000001"))).
  vm_compute. reflexivity.
Defined.

Lemma only_the_first_session_is_listed_witness :
  (length [mkInstance (js "auto_1") (js "claude_auto_1") (js "2023-11-14T22:13:20.000Z")]
   <= 1)%nat.
Proof.
  apply (only_the_first_session_is_listed
           (fun _ => Returned (js "2023-11-14T22:13:20.000Z"))
           (js "claude_auto_1|1700000000" ++ [10%N] ++ js "claude_auto_2|1700000001")).
  - vm_compute. reflexivity.
  - vm_compute. reflexivity.
Defined.
